(** * gomr: a manager of [replace] lines in Go modules

    A shallow embedding of [main.go] and the properties of its record store
    ([.gomr]), of the [go mod] gateway and of the four commands
    [add], [remove], [up] and [down].

    Go strings are byte strings: they are modelled by [string] (a list of
    [ascii] bytes).  A process is modelled by a state-and-error monad over a
    [World]: the file system (a finite map from cleaned absolute paths to
    nodes, in which the directories above a node are nodes too), the working
    directory, the [GOPATH] variable, what the process wrote to its standard
    streams and the log of the [go] invocations. *)

From Stdlib Require Import String Ascii List Arith Bool Lia.
From stdpp Require Import base option list gmap strings.
From Equations Require Import Equations.
Import ListNotations.

Local Open Scope string_scope.
Local Open Scope list_scope.

(** ** Byte strings: the pieces of [strings], [bufio] and [path/filepath]
       that [main.go] calls *)

Module GoStrings.

Definition byte (c : ascii) : nat := nat_of_ascii c.

(** [strings.HasPrefix s prefix]. *)
Definition HasPrefix (s prefix : string) : bool := String.prefix prefix s.

(** [s[1:]] on a string known to be non-empty (on the empty string Go
    panics; [main.go] only slices after [HasPrefix s "!"]). *)
Definition tail (s : string) : string :=
  match s with
  | EmptyString => EmptyString
  | String _ r => r
  end.

(** The [asciiSpace] table of package [strings]. *)
Definition asciiSpace (c : ascii) : bool :=
  let n := byte c in
  ((n =? 9) || (n =? 10) || (n =? 11) || (n =? 12) || (n =? 13) || (n =? 32))%nat.

(** Width in bytes of the white-space rune that starts [s], [0] when [s]
    does not start with one.  [unicode.IsSpace] holds of the six ASCII
    characters above and of U+0085, U+00A0, U+1680, U+2000..U+200A, U+2028,
    U+2029, U+202F, U+205F and U+3000, written here in UTF-8.  A lead byte
    never occurs inside a well-formed sequence and Go's decoder consumes
    one byte of an ill-formed one, so recognising the encodings at every
    byte is what decoding rune after rune does. *)
Definition space_width (s : string) : nat :=
  match s with
  | EmptyString => 0
  | String c r =>
      if asciiSpace c then 1
      else
        match r with
        | EmptyString => 0
        | String d r' =>
            if ((byte c =? 194) && ((byte d =? 133) || (byte d =? 160)))%nat
            then 2
            else
              match r' with
              | EmptyString => 0
              | String e _ =>
                  if (((byte c =? 225) && (byte d =? 154) && (byte e =? 128))
                      || ((byte c =? 226) && (byte d =? 128)
                          && (((128 <=? byte e) && (byte e <=? 138))
                              || (byte e =? 168) || (byte e =? 169)
                              || (byte e =? 175)))
                      || ((byte c =? 226) && (byte d =? 129) && (byte e =? 159))
                      || ((byte c =? 227) && (byte d =? 128) && (byte e =? 128)))%nat
                  then 3
                  else 0
              end
        end
  end.

(** The scanning loop of [strings.Fields]: [skip] counts the bytes of the
    current white-space rune still to be dropped, [cur] is the field being
    read. *)
Definition flush (cur : string) : list string :=
  match cur with
  | EmptyString => []
  | _ => [cur]
  end.

Fixpoint fields_from (s : string) (skip : nat) (cur : string) : list string :=
  match s with
  | EmptyString => flush cur
  | String c r =>
      match skip with
      | S k => fields_from r k cur
      | O =>
          match space_width s with
          | O => fields_from r 0 (cur ++ String c EmptyString)
          | S k => flush cur ++ fields_from r k EmptyString
          end
      end
  end.

(** [strings.Fields s]: the maximal runs of non-white-space of [s]. *)
Definition Fields (s : string) : list string := fields_from s 0 EmptyString.

(** [strings.ToLower]: byte-wise on a string of ASCII bytes; on any other
    string Go maps [unicode.ToLower] over the runes, which comes from the
    Unicode tables and is the parameter [unicodeLower]. *)
Definition isASCII (s : string) : bool :=
  forallb (fun c => (byte c <? 128)%nat) (list_ascii_of_string s).

Definition lowerByte (c : ascii) : ascii :=
  if ((65 <=? byte c) && (byte c <=? 90))%nat then ascii_of_nat (byte c + 32) else c.

Fixpoint mapBytes (f : ascii -> ascii) (s : string) : string :=
  match s with
  | EmptyString => EmptyString
  | String c r => String (f c) (mapBytes f r)
  end.

Definition ToLower (unicodeLower : string -> string) (s : string) : string :=
  if isASCII s then mapBytes lowerByte s else unicodeLower s.

(** *** [bufio.Scanner] with the default [ScanLines] split function *)

(** [bufio.MaxScanTokenSize]: a line that does not end within the first
    [64 * 1024] bytes of the buffer makes [Scan] stop with [ErrTooLong]. *)
Definition MaxScanTokenSize : nat := 64 * 1024.

(** The raw lines of the input: the text between newlines, and the text
    after the last newline when it is not empty. *)
Fixpoint rawLines (s : string) : list string :=
  match s with
  | EmptyString => []
  | String c r =>
      if (byte c =? 10)%nat then EmptyString :: rawLines r
      else
        match rawLines r with
        | [] => [String c EmptyString]
        | l :: ls => String c l :: ls
        end
  end.

(** [dropCR]: a token loses one trailing carriage return. *)
Fixpoint dropCR (s : string) : string :=
  match s with
  | EmptyString => EmptyString
  | String c EmptyString => if (byte c =? 13)%nat then EmptyString else s
  | String c r => String c (dropCR r)
  end.

(** *** [path/filepath] on Unix *)

(** The elements of a path, split at every slash. *)
Fixpoint splitSlash (s : string) : list string :=
  match s with
  | EmptyString => [EmptyString]
  | String c r =>
      if (byte c =? 47)%nat then EmptyString :: splitSlash r
      else
        match splitSlash r with
        | [] => [String c EmptyString]
        | x :: xs => String c x :: xs
        end
  end.

(** One element of the loop of [filepath.Clean]; [out] holds the elements
    written so far, last one first. *)
Definition cleanStep (rooted : bool) (out : list string) (e : string)
  : list string :=
  if String.eqb e "" || String.eqb e "." then out
  else if String.eqb e ".." then
    match out with
    | top :: below => if String.eqb top ".." then ".." :: out else below
    | [] => if rooted then [] else [".."]
    end
  else e :: out.

Definition IsAbs (path : string) : bool := HasPrefix path "/".

(** [filepath.Clean]. *)
Definition Clean (path : string) : string :=
  if String.eqb path "" then "."
  else
    let rooted := IsAbs path in
    let body :=
      String.concat "/" (rev (fold_left (cleanStep rooted) (splitSlash path) [])) in
    if rooted then "/" ++ body
    else if String.eqb body "" then "." else body.

(** [filepath.Join]: the elements from the first non-empty one on, joined
    with slashes and cleaned; the empty string when there is none. *)
Fixpoint Join (elem : list string) : string :=
  match elem with
  | [] => ""
  | e :: rest =>
      if String.eqb e "" then Join rest else Clean (String.concat "/" elem)
  end.

End GoStrings.

Import GoStrings.

(** The newline character of [Fprintln] and of the [\n] of the format
    strings. *)
Definition nl : string := String (ascii_of_nat 10) EmptyString.

(** ** Data: records, errors, outcomes *)

(** [type replace struct]. *)
Record replace : Type := mkReplace {
  ModuleName : string;
  AbsPath : string;
  AddGoMod : bool
}.

(** The zero value of [replace] ([var r replace], [var deleted replace]). *)
Definition zeroReplace : replace := mkReplace "" "" false.

(** The [error] values the program meets.  The first five come from package
    [os] ([ENOENT], [ENOTDIR], [EACCES], [EISDIR] and [ENOTEMPTY] on a path),
    [ErrTooLong] from [bufio], [ErrExit] from [os/exec]; the next two are
    built in [main.go] ([fmt.Errorf] in [addRun], the spec's [PathNotFound];
    [errors.New] in [findModuleRoot], the spec's [NoHostModule]); [Wrap] is
    [errors.Wrap] and [errors.Wrapf]. *)
Inductive error : Type :=
| ErrNotExist (path : string)
| ErrNotDir (path : string)
| ErrPermission (path : string)
| ErrIsDir (path : string)
| ErrNotEmpty (path : string)
| ErrTooLong
| ErrExit
| ErrPathMissing (path : string)
| ErrNoModule
| Wrap (e : error) (msg : string).

(** [os.IsNotExist]: of the errors above it holds of [ENOENT] only; a path
    that runs through a regular file fails with [ENOTDIR], of which it does
    not hold. *)
Definition IsNotExist (e : error) : bool :=
  match e with
  | ErrNotExist _ => true
  | _ => false
  end.

(** A run-time panic of Go: indexing [s[index]] with [len(s) = len]. *)
Inductive panic : Type :=
| IndexOutOfRange (index len : nat).

(** How a call ends: it returns a value ([err == nil]), returns an error,
    panics, or is still running when the fuel given to the only unbounded
    loop of the program (in [findModuleRoot]) is used up. *)
Inductive outcome (A : Type) : Type :=
| Ok (a : A)
| Err (e : error)
| Panic (p : panic)
| Spin.
Arguments Ok {A} a.
Arguments Err {A} e.
Arguments Panic {A} p.
Arguments Spin {A}.

(** ** The world of a process *)

(** A node of the file system; [Forbidden] is a path whose [stat], [open]
    and [unlink] fail with a permission error; so they do for the paths below
    it, none of which is a node. *)
Inductive node : Type :=
| File (content : string)
| Directory
| Forbidden.

Definition IsDir (n : node) : bool :=
  match n with
  | Directory => true
  | _ => false
  end.

(** An [exec.Cmd] for the [go] executable: [Dir] ([None] when the field is
    left unset, the child then runs in the working directory of the process)
    and the arguments after [go]. *)
Record Cmd : Type := mkCmd {
  Dir : option string;
  Args : list string
}.

(** The directory the child process of a command runs in, for a calling
    process whose working directory is [cwd]: [Dir], and [cwd] when [Dir] is
    unset. *)
Definition runDir (cwd : string) (c : Cmd) : string :=
  match Dir c with
  | Some d => d
  | None => cwd
  end.

(** How the child process ended: [CombinedOutput] returns its output and a
    nil error, or its output and an error. *)
Inductive exit : Type :=
| Exit0
| ExitFail (output : string).

(** What a run of the tool can see and change: the working directory, the
    [GOPATH] variable, the file system, the [go] commands run so far (with
    whether they succeeded) and the texts written to the standard output and
    to the standard error. *)
Record World : Type := mkWorld {
  cwd : string;
  GOPATH : string;
  files : gmap string node;
  execs : list (Cmd * bool);
  stdout : list string;
  stderr : list string
}.

Definition setFiles (fs : gmap string node) (w : World) : World :=
  mkWorld (cwd w) (GOPATH w) fs (execs w) (stdout w) (stderr w).

Definition logExec (c : Cmd) (ok : bool) (w : World) : World :=
  mkWorld (cwd w) (GOPATH w) (files w) (execs w ++ [(c, ok)]) (stdout w) (stderr w).

Definition toStdout (s : string) (w : World) : World :=
  mkWorld (cwd w) (GOPATH w) (files w) (execs w) (stdout w ++ [s]) (stderr w).

Definition toStderr (s : string) (w : World) : World :=
  mkWorld (cwd w) (GOPATH w) (files w) (execs w) (stdout w) (stderr w ++ [s]).

(** The key of a path in [files]: the cleaned path, taken from the working
    directory when it is relative. *)
Definition key (w : World) (p : string) : string :=
  if IsAbs p then Clean p else Join [cwd w; p].

(** The proper prefixes of a path that end just before a slash, the
    shortest first: for [/a/b/c] the empty one, [/a] and [/a/b]. *)
Fixpoint cuts (s : string) : list string :=
  match s with
  | EmptyString => []
  | String c r =>
      (if (byte c =? 47)%nat then [EmptyString] else [])
      ++ map (String c) (cuts r)
  end.

(** The directories above a key, the nearest to the root first; the root
    itself, which always is a directory, is left out. *)
Definition ancestors (k : string) : list string :=
  List.filter (fun a => negb (String.eqb a "")) (cuts k).

(** Walking down the directories above the path [p]: the first one that is
    no directory stops the walk, with [ENOENT] when there is nothing there,
    [ENOTDIR] when it is a regular file and [EACCES] when it is forbidden. *)
Fixpoint walk (fs : gmap string node) (p : string) (dirs : list string)
  : option error :=
  match dirs with
  | [] => None
  | d :: rest =>
      match fs !! d with
      | Some Directory => walk fs p rest
      | Some (File _) => Some (ErrNotDir p)
      | Some Forbidden => Some (ErrPermission p)
      | None => Some (ErrNotExist p)
      end
  end.

(** Every directory above the key is there. *)
Definition dirsAbove (fs : gmap string node) (k : string) : bool :=
  forallb (fun a => match fs !! a with
                    | Some Directory => true
                    | _ => false
                    end)
          (ancestors k).

(** A map stands for a file system when the directories above each of its
    nodes are directories of the map. *)
Definition wellFormed (fs : gmap string node) : bool :=
  forallb (fun kv => dirsAbove fs (fst kv)) (map_to_list fs).

(** ** The monad of the program *)

Definition M (A : Type) : Type := World -> outcome A * World.

Definition ret {A : Type} (a : A) : M A := fun w => (Ok a, w).

Definition bind {A B : Type} (m : M A) (k : A -> M B) : M B :=
  fun w =>
    match m w with
    | (Ok a, w') => k a w'
    | (Err e, w') => (Err e, w')
    | (Panic p, w') => (Panic p, w')
    | (Spin, w') => (Spin, w')
    end.

Notation "x <- m ;; k" := (bind m (fun x => k))
  (at level 100, m at next level, right associativity).
Notation "m ;;; k" := (bind m (fun _ => k))
  (at level 100, right associativity).

(** [return errors.Wrap(err, msg)] on the error of a call. *)
Definition wrapping {A : Type} (msg : string) (m : M A) : M A :=
  fun w =>
    match m w with
    | (Err e, w') => (Err (Wrap e msg), w')
    | r => r
    end.

(** ** Package [os] and [fmt] *)

(** What the system finds at a path: the node, or the error of the path.
    A node of the map is found as it is (in a map that stands for a file
    system the directories above it are there); where there is no node, the
    directories above tell which error it is. *)
Definition lookupNode (p : string) (w : World) : error + node :=
  if String.eqb p "" then inl (ErrNotExist p)
  else
    match files w !! key w p with
    | None =>
        match walk (files w) p (ancestors (key w p)) with
        | Some e => inl e
        | None => inl (ErrNotExist p)
        end
    | Some Forbidden => inl (ErrPermission p)
    | Some n => inr n
    end.

(** [os.Stat]. *)
Definition Stat (p : string) (w : World) : error + node := lookupNode p w.

(** The same by walking down from the root first and looking at the node
    last, as the system resolves a path. *)
Definition lookupWalking (p : string) (w : World) : error + node :=
  if String.eqb p "" then inl (ErrNotExist p)
  else
    match walk (files w) p (ancestors (key w p)) with
    | Some e => inl e
    | None =>
        match files w !! key w p with
        | None => inl (ErrNotExist p)
        | Some Forbidden => inl (ErrPermission p)
        | Some n => inr n
        end
    end.

(** [os.Getwd] and [os.Getenv("GOPATH")]. *)
Definition Getwd : M string := fun w => (Ok (cwd w), w).
Definition GetenvGOPATH : M string := fun w => (Ok (GOPATH w), w).

(** No key of the file system lies below the directory [k]. *)
Definition emptyDir (k : string) (fs : gmap string node) : bool :=
  forallb (fun kv => negb (HasPrefix (fst kv) (k ++ "/"))) (map_to_list fs).

(** [os.Remove]: a file or an empty directory is unlinked; the result is the
    [err] of the call ([None] for nil). *)
Definition Remove (p : string) (w : World) : option error * World :=
  match lookupNode p w with
  | inl e => (Some e, w)
  | inr Directory =>
      if emptyDir (key w p) (files w)
      then (None, setFiles (delete (key w p) (files w)) w)
      else (Some (ErrNotEmpty p), w)
  | inr _ => (None, setFiles (delete (key w p) (files w)) w)
  end.

(** [os.Open] followed by reading the file to its end (opening a directory
    succeeds, reading it is what fails). *)
Definition readAll (p : string) (w : World) : error + string :=
  match lookupNode p w with
  | inl e => inl e
  | inr (File c) => inr c
  | inr _ => inl (ErrIsDir p)
  end.

(** [os.Create] (when [trunc]) and [os.OpenFile] with
    [O_CREATE|O_APPEND|O_WRONLY] (otherwise): the file exists afterwards,
    empty in the first case; the handle is the key of the file.  A file is
    created only where every directory above it is there; otherwise the call
    fails with the error of the path and creates nothing. *)
Definition openForWrite (trunc : bool) (p : string) : M string :=
  fun w =>
    if String.eqb p "" then (Err (ErrNotExist p), w)
    else
      match files w !! key w p with
      | Some Directory => (Err (ErrIsDir p), w)
      | Some Forbidden => (Err (ErrPermission p), w)
      | Some (File c) =>
          (Ok (key w p),
           if trunc then setFiles (<[key w p := File ""]> (files w)) w else w)
      | None =>
          match walk (files w) p (ancestors (key w p)) with
          | Some e => (Err e, w)
          | None => (Ok (key w p), setFiles (<[key w p := File ""]> (files w)) w)
          end
      end.

(** Writing [s] at the end of the file behind a handle. *)
Definition writeString (handle : string) (s : string) : M unit :=
  fun w =>
    match files w !! handle with
    | Some (File c) => (Ok tt, setFiles (<[handle := File (c ++ s)]> (files w)) w)
    | _ => (Err (ErrNotExist handle), w)
    end.

(** [file.Close]. *)
Definition Close (handle : string) : M unit := ret tt.

(** [fmt.Printf] and [fmt.Println] on the standard output. *)
Definition Print (s : string) : M unit := fun w => (Ok tt, toStdout s w).

(** [fmt.Sprintln]: the operands separated by spaces, then a newline. *)
Definition Sprintln (operands : list string) : string :=
  String.concat " " operands ++ nl.

(** ** [main.go] *)

Definition gomrFilename : string := ".gomr".

Section Program.

(** The [go] executable, run in the working directory of the process or in
    [Dir]: how it exits and what it does to the file system. *)
Variable goTool : string -> Cmd -> gmap string node -> exit * gmap string node.

(** [strings.Map(unicode.ToLower, s)], for [strings.ToLower] on a string
    that is not ASCII. *)
Variable unicodeLower : string -> string.

(** [func gomod(dir string, args ...string) error]. *)
Definition gomod (dir : string) (args : list string) : M unit :=
  fun w =>
    let cmd :=
      mkCmd (if (String.length dir =? 0)%nat then None else Some dir)
            ("mod" :: args) in
    match goTool (cwd w) cmd (files w) with
    | (Exit0, fs) => (Ok tt, logExec cmd true (setFiles fs w))
    | (ExitFail b, fs) =>
        (Err ErrExit, toStderr (b ++ nl) (logExec cmd false (setFiles fs w)))
    end.

(** The body of the loop of [findModuleRoot] never assigns [d]: [continue]
    and the end of the body both start the next iteration with the same
    directory. *)
Fixpoint findModuleRootLoop (fuel : nat) (d : string) (w : World)
  : outcome string :=
  match fuel with
  | O => Spin
  | S fuel' =>
      if String.eqb d "" || String.eqb d "/" then Err ErrNoModule
      else
        match Stat (Join [d; "go.mod"]) w with
        | inl err =>
            if IsNotExist err then findModuleRootLoop fuel' d w
            else Err err
        | inr f =>
            if negb (IsDir f) then Ok d
            else findModuleRootLoop fuel' d w
        end
  end.

(** [func findModuleRoot() (string, error)]. *)
Definition findModuleRoot (fuel : nat) : M string :=
  d <- Getwd ;;
  fun w => (findModuleRootLoop fuel d w, w).

(** The body of the scanning loop of [readGomrFile] on one line:
    [splits[0]] and [splits[1]] panic when the index is out of range. *)
Definition parseLine (line : string) : panic + replace :=
  let splits := Fields line in
  match splits !! 0%nat with
  | None => inl (IndexOutOfRange 0 (length splits))
  | Some name =>
      match splits !! 1%nat with
      | None => inl (IndexOutOfRange 1 (length splits))
      | Some p =>
          if HasPrefix p "!" then inr (mkReplace name (tail p) true)
          else inr (mkReplace name p false)
      end
  end.

(** [for scanner.Scan() { ... }] and the check of [scanner.Err()]. *)
Fixpoint scanLoop (lines : list string) (replaces : list replace)
  : outcome (list replace) :=
  match lines with
  | [] => Ok replaces
  | raw :: rest =>
      if (MaxScanTokenSize <=? String.length raw)%nat then Err ErrTooLong
      else
        match parseLine (dropCR raw) with
        | inl p => Panic p
        | inr r => scanLoop rest (replaces ++ [r])
        end
  end.

(** [func readGomrFile(path string) ([]replace, error)]. *)
Definition readGomrFile (path : string) : M (list replace) :=
  fun w =>
    match readAll path w with
    | inl e => (Err e, w)
    | inr content => (scanLoop (rawLines content) [], w)
    end.

(** The line [writeGomrFile] writes for a record: [Fprintln] prints its
    operands, the string ["%s %s"] among them. *)
Definition writeLine (r : replace) : string :=
  let absPath : string := AbsPath r in
  let absPath : string := if AddGoMod r then ("!" ++ absPath)%string else absPath in
  Sprintln ["%s %s"; ModuleName r; absPath].

Fixpoint writeLoop (f : string) (replaces : list replace) : M unit :=
  match replaces with
  | [] => ret tt
  | r :: rest => writeString f (writeLine r) ;;; writeLoop f rest
  end.

(** [func writeGomrFile(path string, replaces []replace) error]. *)
Definition writeGomrFile (path : string) (replaces : list replace) : M unit :=
  f <- wrapping ("failed to open " ++ gomrFilename ++ " file for writing")
         (openForWrite true path) ;;
  writeLoop f replaces ;;;
  wrapping ("failed to close " ++ gomrFilename ++ " file write") (Close f).

(** The text [addRun] writes for a record: [Fprintf] with ["%s %s"] or
    ["%s !%s"], neither of which ends the line. *)
Definition addLine (moduleName absPath : string) (addGoMod : bool) : string :=
  if addGoMod then moduleName ++ " !" ++ absPath
  else moduleName ++ " " ++ absPath.

(** [func addRun(cmd *cobra.Command, args []string) error]; cobra's
    [MinimumNArgs(1)] keeps an empty [args] away. *)
Definition addRun (fuel : nat) (args : list string) : M unit :=
  match args with
  | [] => fun w => (Panic (IndexOutOfRange 0 0), w)
  | moduleName :: rest =>
      let absPath := match rest with p :: _ => p | [] => "" end in
      absPath <- (if (String.length absPath =? 0)%nat
                  then gopath <- GetenvGOPATH ;; ret (Join [gopath; "src"; moduleName])
                  else ret absPath) ;;
      (fun w =>
         match Stat absPath w with
         | inl err =>
             if IsNotExist err then (Err (ErrPathMissing absPath), w)
             else (Err err, w)
         | inr _ => (Ok tt, w)
         end) ;;;
      addGoMod <- (fun w =>
         match Stat (Join [absPath; "go.mod"]) w with
         | inl err => if IsNotExist err then (Ok true, w) else (Err err, w)
         | inr _ => (Ok false, w)
         end) ;;
      modRoot <- findModuleRoot fuel ;;
      (if addGoMod : bool
       then wrapping ("failed to go mod init in dir: " ++ absPath)
              (gomod absPath ["init"; moduleName])
       else ret tt) ;;;
      gomod modRoot ["edit"; ("-replace=" ++ moduleName ++ "=" ++ absPath)%string] ;;;
      file <- wrapping ("failed to open " ++ gomrFilename ++ " file for writing")
                (openForWrite false (Join [modRoot; gomrFilename])) ;;
      wrapping ("failed to write to " ++ gomrFilename)
        (writeString file (addLine moduleName absPath addGoMod)) ;;;
      wrapping ("failed to close " ++ gomrFilename ++ " file") (Close file) ;;;
      Print ("added replace: " ++ moduleName ++ " => " ++ absPath ++ nl)
  end.

(** The loop of [removeRun]: on a match the last record is copied over
    the matching one, the slice loses its last element, and [i++] moves
    past the record that was just copied in. *)
Equations? removeLoop (moduleName : string) (i : nat)
    (replaces : list replace) (found : bool) (deleted : replace)
    : list replace * bool * replace
    by wf (length replaces - i)%nat lt :=
  removeLoop moduleName i replaces found deleted
    with lt_dec i (length replaces) => {
    | right _ := (replaces, found, deleted)
    | left Hi with replaces !! i, replaces !! (length replaces - 1)%nat => {
      | Some r, Some last
          with String.eqb (ToLower unicodeLower (ModuleName r))
                          (ToLower unicodeLower moduleName) => {
        | true :=
            removeLoop moduleName (S i)
              (take (length replaces - 1)%nat (<[i := last]> replaces)) true r
        | false := removeLoop moduleName (S i) replaces found deleted }
      | _, _ := (replaces, found, deleted) } }.
Proof.
  - rewrite length_take, length_insert. lia.
  - lia.
Qed.

(** [os.Remove] of a file that may be gone already:
    [if err != nil && !os.IsNotExist(err) { return errors.Wrap(err, msg) }]. *)
Definition removeTolerant (p msg : string) : M unit :=
  fun w =>
    match Remove p w with
    | (Some err, w') =>
        if negb (IsNotExist err) then (Err (Wrap err msg), w') else (Ok tt, w')
    | (None, w') => (Ok tt, w')
    end.

(** [func removeRun(cmd *cobra.Command, args []string) error]; cobra's
    [ExactArgs(1)] makes [args] a single name. *)
Definition removeRun (fuel : nat) (args : list string) : M unit :=
  match args with
  | [] => fun w => (Panic (IndexOutOfRange 0 0), w)
  | moduleName :: _ =>
      modRoot <- findModuleRoot fuel ;;
      let gomrFilePath := Join [modRoot; gomrFilename] in
      replaces <- readGomrFile gomrFilePath ;;
      let '(replaces, found, deleted) :=
        removeLoop moduleName 0 replaces false zeroReplace in
      if negb found then
        Print ("could not find stored replace for module: " ++ moduleName ++ nl)
      else
        gomod "" ["edit"; ("-dropreplace=" ++ moduleName)%string] ;;;
        (if AddGoMod deleted then
           removeTolerant (Join [AbsPath deleted; "go.mod"])
             "something went wrong when trying to delete the added go.mod" ;;;
           removeTolerant (Join [AbsPath deleted; "go.sum"])
             "something went wrong when trying to delete the added go.sum"
         else ret tt) ;;;
        wrapping "failed to write gomr file after remove"
          (writeGomrFile gomrFilePath replaces) ;;;
        Print ("deleted replace: " ++ ModuleName deleted ++ " => "
               ++ AbsPath deleted ++ nl)
  end.

(** The [-replace] argument of a record. *)
Definition replaceArg (r : replace) : string :=
  "-replace=" ++ ModuleName r ++ "=" ++ AbsPath r.

(** The [-dropreplace] argument of a record. *)
Definition dropArg (r : replace) : string :=
  "-dropreplace=" ++ ModuleName r.

(** The loop of [upRun]. *)
Fixpoint upLoop (replaces : list replace) (replaceArgs : list string)
  : M (list string) :=
  match replaces with
  | [] => ret replaceArgs
  | r :: rest =>
      (if AddGoMod r
       then wrapping ("failed to go mod init in dir: " ++ AbsPath r)
              (gomod (AbsPath r) ["init"; ModuleName r])
       else ret tt) ;;;
      upLoop rest (replaceArgs ++ [replaceArg r])
  end.

(** [func upRun(cmd *cobra.Command, args []string) error]. *)
Definition upRun (fuel : nat) : M unit :=
  modRoot <- findModuleRoot fuel ;;
  let gomrFilePath := Join [modRoot; gomrFilename] in
  replaces <- readGomrFile gomrFilePath ;;
  replaceArgs <- upLoop replaces [] ;;
  gomod "" ("edit" :: replaceArgs) ;;;
  Print ("replace lines installed" ++ nl).

(** The loop of [downRun]. *)
Fixpoint downLoop (replaces : list replace) (replaceArgs : list string)
  : M (list string) :=
  match replaces with
  | [] => ret replaceArgs
  | r :: rest =>
      (if AddGoMod r
       then removeTolerant (Join [AbsPath r; "go.mod"])
              "something went wrong when trying to delete the added go.mod"
       else ret tt) ;;;
      downLoop rest (replaceArgs ++ [dropArg r])
  end.

(** [func downRun(cmd *cobra.Command, args []string) error]. *)
Definition downRun (fuel : nat) : M unit :=
  modRoot <- findModuleRoot fuel ;;
  let gomrFilePath := Join [modRoot; gomrFilename] in
  replaces <- readGomrFile gomrFilePath ;;
  replaceArgs <- downLoop replaces [] ;;
  gomod "" ("edit" :: replaceArgs) ;;;
  Print ("replace lines removed" ++ nl).

End Program.

(** ** Examples: a stand-in for the [go] command and a few worlds *)

(** A small [go mod]: [init <name>] writes a [go.mod] in the directory of
    the command and fails when there is one already; [edit ...] succeeds when
    the directory holds a [go.mod] file, which it leaves as it is; anything
    else fails. *)
Definition goStub (cwd : string) (c : Cmd) (fs : gmap string node)
  : exit * gmap string node :=
  let dir := runDir cwd c in
  let manifest := Join [dir; "go.mod"] in
  match Args c with
  | m :: sub :: rest =>
      if String.eqb m "mod" && String.eqb sub "init" then
        match fs !! manifest with
        | None =>
            (Exit0, <[manifest := File ("module " ++ String.concat " " rest ++ nl)]> fs)
        | Some _ => (ExitFail ("go: " ++ manifest ++ " already exists"), fs)
        end
      else if String.eqb m "mod" && String.eqb sub "edit" then
        match fs !! manifest with
        | Some (File _) => (Exit0, fs)
        | _ => (ExitFail "go: go.mod file not found", fs)
        end
      else (ExitFail "go: unknown command", fs)
  | _ => (ExitFail "go: unknown command", fs)
  end.

(** A process started in [dir] with the given files and [GOPATH]. *)
Definition start (dir gopath : string) (fs : list (string * node)) : World :=
  mkWorld dir gopath (list_to_map fs) [] [] [].

(** The scenario of the spec: a host module [/m] whose store holds
    [a /x/a] and [b !/y/b]. *)
Definition worldAB : World :=
  start "/m" "/ws"
    [("/m", Directory); ("/m/go.mod", File ("module m" ++ nl));
     ("/m/.gomr", File ("a /x/a" ++ nl ++ "b !/y/b" ++ nl));
     ("/x", Directory); ("/x/a", Directory);
     ("/x/a/go.mod", File ("module a" ++ nl));
     ("/y", Directory); ("/y/b", Directory)].

(** A module [/a] and a working directory [/a/b] below it. *)
Definition worldNested : World :=
  start "/a/b" "/ws"
    [("/a", Directory); ("/a/go.mod", File ("module a" ++ nl)); ("/a/b", Directory)].

(** A host module [/m] without a store, next to two checked-out packages,
    the second one without a [go.mod]. *)
Definition worldFresh : World :=
  start "/m" "/ws"
    [("/m", Directory); ("/m/go.mod", File ("module m" ++ nl));
     ("/x", Directory); ("/x/a", Directory);
     ("/x/a/go.mod", File ("module a" ++ nl));
     ("/y", Directory); ("/y/b", Directory)].

(** A host module whose store is the text [content]. *)
Definition worldStore (content : string) : World :=
  start "/m" "/ws"
    [("/m", Directory); ("/m/go.mod", File ("module m" ++ nl));
     ("/m/.gomr", File content)].

(** A host module whose store has one line, which names the host module
    itself as a target with a synthesized [go.mod]. *)
Definition worldSelf : World := worldStore ("x !/m" ++ nl).

(** ** Notions used in the statements *)

(** A text without a newline, and the file made of the given lines. *)
Fixpoint noNewline (s : string) : bool :=
  match s with
  | EmptyString => true
  | String c r => negb (byte c =? 10)%nat && noNewline r
  end.

Fixpoint unlines (ls : list string) : string :=
  match ls with
  | [] => ""
  | l :: rest => l ++ nl ++ unlines rest
  end.

(** [n] spaces. *)
Fixpoint spaces (n : nat) : string :=
  match n with
  | O => ""
  | S k => String (ascii_of_nat 32) (spaces k)
  end.

(** The [go mod init] and [go mod edit] invocations. *)
Definition isInit (c : Cmd) : bool :=
  match Args c with
  | m :: sub :: _ => String.eqb m "mod" && String.eqb sub "init"
  | _ => false
  end.

Definition isEdit (c : Cmd) : bool :=
  match Args c with
  | m :: sub :: _ => String.eqb m "mod" && String.eqb sub "edit"
  | _ => false
  end.

(** The invocations logged between the world [w] and a later world [w']. *)
Definition since (w w' : World) : list (Cmd * bool) :=
  drop (length (execs w)) (execs w').

(** Running a command of the tool in a world: the world it leaves, whatever
    the outcome. *)
Definition after {A : Type} (m : M A) (w : World) : World := snd (m w).

(** A regular file. *)
Definition isFile (n : option node) : bool :=
  match n with
  | Some (File _) => true
  | _ => false
  end.

(** The last element of a path. *)
Definition lastElem (p : string) : option string := last (splitSlash p).

(** An element that [filepath.Clean] keeps: a name, neither empty nor a
    dot nor a double dot. *)
Definition realElem (e : string) : Prop := e <> "" /\ e <> "." /\ e <> "..".

(** The concatenation of a list of texts. *)
Definition joinAll (l : list string) : string := fold_right String.append "" l.

(** The record made of the first two fields of a line, whatever follows
    them. *)
Definition firstTwoFields (line : string) (r : replace) : Prop :=
  exists (name p : string) (extra : list string),
    Fields line = name :: p :: extra
    /\ r = mkReplace name (if HasPrefix p "!" then tail p else p) (HasPrefix p "!").

(** A line of more than [MaxScanTokenSize] bytes with three fields. *)
Definition longLine : string := "a b c" ++ spaces MaxScanTokenSize.

(** A child process that ended well. *)
Definition succeeded (e : exit) : bool :=
  match e with
  | Exit0 => true
  | ExitFail _ => false
  end.

(** The command [gomod dir args] runs. *)
Definition goCmd (dir : string) (args : list string) : Cmd :=
  mkCmd (if (String.length dir =? 0)%nat then None else Some dir) ("mod" :: args).

(** A computation keeps a relation between the world it starts in and the
    world it leaves. *)
Definition keeps (R : World -> World -> Prop) {A : Type} (m : M A) : Prop :=
  forall w, R w (snd (m w)).

(** No [go] command has run between two worlds. *)
Definition sameExecs (w w' : World) : Prop := execs w' = execs w.

(** Between two worlds the working directory is the same, the node at the
    key [ks] is the same, and a regular file at the key [kh] is still one. *)
Definition storeKept (ks kh : string) (w w' : World) : Prop :=
  cwd w' = cwd w
  /\ files w' !! ks = files w !! ks
  /\ (isFile (files w !! kh) = true -> isFile (files w' !! kh) = true).

(** ** Further notions used in the statements *)

(** The comparison of the loop of [removeRun]: the name of the record and
    the name given are equal once both are in lower case. *)
Definition sameName (unicodeLower : string -> string) (name : string) (r : replace)
  : bool :=
  String.eqb (ToLower unicodeLower (ModuleName r)) (ToLower unicodeLower name).

(** No white-space rune starts at any byte of the text. *)
Fixpoint noSpace (s : string) : bool :=
  match s with
  | EmptyString => true
  | String _ r => (space_width s =? 0)%nat && noSpace r
  end.

(** The [go mod init] command of a record with a synthesized [go.mod]. *)
Definition initCmd (r : replace) : Cmd :=
  goCmd (AbsPath r) ["init"; ModuleName r].

(** The carriage return. *)
Definition cr : string := String (ascii_of_nat 13) EmptyString.

(** A host module [/m] and a package [/x/a] with a [go.mod], the store
    being absent. *)
Definition worldNoStore : World :=
  start "/m" "/ws"
    [("/m", Directory); ("/m/go.mod", File ("module m" ++ nl));
     ("/x", Directory); ("/x/a", Directory);
     ("/x/a/go.mod", File ("module a" ++ nl))].

(** * Properties *)

(** ** The string and path functions on small inputs *)

Example Fields_ex1 : Fields "  a   b c " = ["a"; "b"; "c"].
Proof. reflexivity. Qed.
Example Fields_ex2 : Fields "" = [].
Proof. reflexivity. Qed.
Example Clean_ex1 : Clean "a//b/./c/" = "a/b/c".
Proof. reflexivity. Qed.
Example Clean_ex2 : Clean "a/../../b" = "../b".
Proof. reflexivity. Qed.
Example Clean_ex3 : Clean "/../a/b/.." = "/a".
Proof. reflexivity. Qed.
Example Clean_ex4 : Clean "/" = "/" /\ Clean "./" = "." /\ Clean "../.." = "../..".
Proof. repeat split; reflexivity. Qed.
Example Join_ex1 : Join ["/ws"; "src"; "pkg"] = "/ws/src/pkg".
Proof. reflexivity. Qed.
Example Join_ex2 : Join [""; "src"; "pkg"] = "src/pkg" /\ Join ["a"; ""; "b"] = "a/b".
Proof. split; reflexivity. Qed.
Example rawLines_ex : rawLines ("a" ++ String (ascii_of_nat 10) (String (ascii_of_nat 10) "b")) = ["a"; ""; "b"].
Proof. reflexivity. Qed.

(** ** Facts on byte strings *)

Lemma append_cons (c : ascii) (s t : string) :
  (String c s ++ t)%string = String c (s ++ t).
Proof. reflexivity. Qed.

Lemma append_nil_l (s : string) : ("" ++ s)%string = s.
Proof. reflexivity. Qed.

Lemma append_nil_r (s : string) : (s ++ "")%string = s.
Proof.
  induction s as [|c s IH]; [reflexivity|].
  rewrite append_cons. f_equal. exact IH.
Qed.

Lemma append_assoc (a b c : string) : ((a ++ b) ++ c)%string = (a ++ b ++ c)%string.
Proof.
  induction a as [|x a IH]; [reflexivity|].
  rewrite !append_cons. f_equal. exact IH.
Qed.

Lemma length_append (a b : string) :
  String.length (a ++ b) = String.length a + String.length b.
Proof.
  induction a as [|x a IH]; [reflexivity|].
  rewrite append_cons. simpl. f_equal. exact IH.
Qed.

Lemma joinAll_app (xs ys : list string) :
  joinAll (xs ++ ys) = (joinAll xs ++ joinAll ys)%string.
Proof.
  induction xs as [|x xs IH]; simpl; [reflexivity|].
  by rewrite IH, append_assoc.
Qed.

(** ** Host-module root discovery *)

Lemma findModuleRootLoop_absent (d : string) (w : World) (e : error) :
  String.eqb d "" || String.eqb d "/" = false ->
  Stat (Join [d; "go.mod"]) w = inl e -> IsNotExist e = true ->
  forall fuel, findModuleRootLoop fuel d w = Spin.
Proof.
  intros Hd Hs He fuel. induction fuel as [|fuel IH]; simpl.
  - reflexivity.
  - rewrite Hd. unfold Stat in *. simpl in Hs. rewrite Hs, He. exact IH.
Qed.

Lemma findModuleRootLoop_directory (d : string) (w : World) :
  String.eqb d "" || String.eqb d "/" = false ->
  Stat (Join [d; "go.mod"]) w = inr Directory ->
  forall fuel, findModuleRootLoop fuel d w = Spin.
Proof.
  intros Hd Hs fuel. induction fuel as [|fuel IH]; simpl.
  - reflexivity.
  - rewrite Hd. unfold Stat in *. simpl in Hs. rewrite Hs. simpl. exact IH.
Qed.

Lemma findModuleRootLoop_found (d : string) (w : World) (c : string) (fuel : nat) :
  String.eqb d "" || String.eqb d "/" = false ->
  Stat (Join [d; "go.mod"]) w = inr (File c) ->
  findModuleRootLoop (S fuel) d w = Ok d.
Proof.
  intros Hd Hs. simpl. rewrite Hd. unfold Stat in *. simpl in Hs.
  rewrite Hs. reflexivity.
Qed.

Lemma findModuleRootLoop_root (d : string) (w : World) (fuel : nat) :
  String.eqb d "" || String.eqb d "/" = true ->
  findModuleRootLoop (S fuel) d w = Err ErrNoModule.
Proof. intros Hd. simpl. rewrite Hd. reflexivity. Qed.

(** C2: started in [/a/b], below a module [/a] whose [go.mod] exists, the
    search never looks at [/a]: the loop keeps the same directory, so with any
    amount of fuel [findModuleRoot] is still running; it neither returns
    [/a] nor fails. *)
Theorem findModuleRoot_never_advances :
  Stat "/a/go.mod" worldNested = inr (File ("module a" ++ nl))
  /\ forall fuel, findModuleRoot fuel worldNested = (Spin, worldNested).
Proof.
  split; [vm_compute; reflexivity|].
  intros fuel. unfold findModuleRoot, bind, Getwd.
  rewrite (findModuleRootLoop_absent (cwd worldNested) worldNested
             (ErrNotExist "/a/b/go.mod")); try reflexivity.
Qed.

(** ** Loading the store *)

Lemma rawLines_line (l rest : string) :
  noNewline l = true -> rawLines (l ++ nl ++ rest) = l :: rawLines rest.
Proof.
  induction l as [|c l IH]; intros Hl.
  - reflexivity.
  - simpl in Hl. apply andb_prop in Hl as [Hc Hl].
    rewrite append_cons. simpl. apply negb_true_iff in Hc. rewrite Hc.
    rewrite (IH Hl). reflexivity.
Qed.

Lemma rawLines_unlines (ls : list string) :
  Forall (fun l => noNewline l = true) ls -> rawLines (unlines ls) = ls.
Proof.
  induction 1 as [|l ls Hl _ IH]; simpl; [reflexivity|].
  rewrite (rawLines_line _ _ Hl). by rewrite IH.
Qed.

Lemma dropCR_cons2 (c d : ascii) (r : string) :
  dropCR (String c (String d r)) = String c (dropCR (String d r)).
Proof. reflexivity. Qed.

Lemma dropCR_single (c : ascii) :
  dropCR (String c "") = if (byte c =? 13)%nat then "" else String c "".
Proof. reflexivity. Qed.

(** The carriage return that [dropCR] removes is white space and is not
    part of the encoding of a wider white-space rune. *)
Lemma space_width_dropCR (c : ascii) (r : string) :
  space_width (String c (dropCR r)) = space_width (String c r).
Proof.
  destruct r as [|d [|e [|x r]]].
  - reflexivity.
  - rewrite dropCR_single. destruct (byte d =? 13)%nat eqn:E; [|reflexivity].
    apply Nat.eqb_eq in E. unfold space_width. rewrite E. simpl.
    rewrite andb_false_r. reflexivity.
  - rewrite dropCR_cons2, dropCR_single.
    destruct (byte e =? 13)%nat eqn:E; [|reflexivity].
    apply Nat.eqb_eq in E. unfold space_width. rewrite E. simpl.
    rewrite !andb_false_r. reflexivity.
  - rewrite !dropCR_cons2. reflexivity.
Qed.

Lemma fields_from_dropCR (s : string) :
  forall (skip : nat) (cur : string),
    fields_from (dropCR s) skip cur = fields_from s skip cur.
Proof.
  induction s as [|c r IH]; intros skip cur; [reflexivity|].
  destruct r as [|d r].
  - rewrite dropCR_single. destruct (byte c =? 13)%nat eqn:E; [|reflexivity].
    apply Nat.eqb_eq in E. destruct skip as [|k]; [|reflexivity].
    simpl. unfold asciiSpace. rewrite E. simpl. by rewrite app_nil_r.
  - rewrite dropCR_cons2.
    change (fields_from (String c (dropCR (String d r))) skip cur)
      with (match skip with
            | S k => fields_from (dropCR (String d r)) k cur
            | O =>
                match space_width (String c (dropCR (String d r))) with
                | O => fields_from (dropCR (String d r)) 0 (cur ++ String c "")
                | S k => flush cur ++ fields_from (dropCR (String d r)) k ""
                end
            end).
    rewrite space_width_dropCR.
    destruct skip as [|k]; [|by rewrite IH].
    change (fields_from (String c (String d r)) 0 cur)
      with (match space_width (String c (String d r)) with
            | O => fields_from (String d r) 0 (cur ++ String c "")
            | S k => flush cur ++ fields_from (String d r) k ""
            end).
    destruct (space_width (String c (String d r))); by rewrite IH.
Qed.

Lemma Fields_dropCR (s : string) : Fields (dropCR s) = Fields s.
Proof. apply fields_from_dropCR. Qed.

Lemma parseLine_dropCR (s : string) : parseLine (dropCR s) = parseLine s.
Proof. unfold parseLine. by rewrite Fields_dropCR. Qed.

Lemma parseLine_first_two (l name p : string) (extra : list string) :
  Fields l = name :: p :: extra ->
  parseLine l
  = inr (mkReplace name (if HasPrefix p "!" then tail p else p) (HasPrefix p "!")).
Proof.
  intros H. unfold parseLine. rewrite H. simpl. by destruct (HasPrefix p "!").
Qed.

Lemma parseLine_short (l : string) :
  length (Fields l) < 2 ->
  parseLine l = inl (IndexOutOfRange (length (Fields l)) (length (Fields l))).
Proof.
  intros H. unfold parseLine.
  destruct (Fields l) as [|a [|b fs]]; simpl in *; [reflexivity | reflexivity | lia].
Qed.

Lemma scanLoop_cons (raw : string) (rest : list string) (acc : list replace) :
  scanLoop (raw :: rest) acc
  = if (MaxScanTokenSize <=? String.length raw)%nat then Err ErrTooLong
    else
      match parseLine (dropCR raw) with
      | inl p => Panic p
      | inr r => scanLoop rest (acc ++ [r])
      end.
Proof. reflexivity. Qed.

Lemma scanLoop_first_two (ls : list string) :
  Forall (fun l => String.length l < MaxScanTokenSize /\ 2 <= length (Fields l)) ls ->
  forall acc : list replace,
    exists rs, scanLoop ls acc = Ok (acc ++ rs) /\ Forall2 firstTwoFields ls rs.
Proof.
  induction 1 as [|l ls [Hlen Hf] _ IH]; intros acc.
  - exists []. split; [by rewrite app_nil_r | constructor].
  - destruct (Fields l) as [|name [|p extra]] eqn:E;
      cbn [length] in Hf; try (exfalso; clear -Hf; lia).
    rewrite scanLoop_cons. apply Nat.leb_gt in Hlen. rewrite Hlen.
    rewrite parseLine_dropCR, (parseLine_first_two _ _ _ _ E).
    destruct (IH (acc ++ [mkReplace name (if HasPrefix p "!" then tail p else p)
                            (HasPrefix p "!")])) as (rs & Hrs & HF).
    eexists (_ :: rs). split.
    + rewrite Hrs. by rewrite <- app_assoc.
    + constructor; [|exact HF]. by exists name, p, extra.
Qed.

(** A line with fewer than two fields stops the loop with a panic. *)
Lemma scanLoop_short_line (l : string) (ls : list string) (acc : list replace) :
  String.length l < MaxScanTokenSize -> length (Fields l) < 2 ->
  scanLoop (l :: ls) acc
  = Panic (IndexOutOfRange (length (Fields l)) (length (Fields l))).
Proof.
  intros Hlen Hf. rewrite scanLoop_cons. apply Nat.leb_gt in Hlen. rewrite Hlen.
  by rewrite parseLine_dropCR, (parseLine_short _ Hf).
Qed.

Lemma scanLoop_good_prefix (good rest : list string) :
  Forall (fun l => String.length l < MaxScanTokenSize /\ 2 <= length (Fields l)) good ->
  forall acc, exists rs, scanLoop (good ++ rest) acc = scanLoop rest (acc ++ rs).
Proof.
  induction 1 as [|l ls [Hlen Hf] _ IH]; intros acc.
  - exists []. by rewrite app_nil_r.
  - destruct (Fields l) as [|name [|p extra]] eqn:E;
      cbn [length] in Hf; try (exfalso; clear -Hf; lia).
    cbn [app]. rewrite scanLoop_cons. apply Nat.leb_gt in Hlen. rewrite Hlen.
    rewrite parseLine_dropCR, (parseLine_first_two _ _ _ _ E).
    destruct (IH (acc ++ [mkReplace name (if HasPrefix p "!" then tail p else p)
                            (HasPrefix p "!")])) as (rs & Hrs).
    eexists (_ :: rs). rewrite Hrs. by rewrite <- app_assoc.
Qed.

(** C10 (amended): let the lines of the store be the lines the scanner
    splits it into.  When every line is shorter than [MaxScanTokenSize] bytes
    and has two fields or more, [readGomrFile] returns one record per line,
    made of the first two fields of the line only; the fields after the
    second are ignored.  When a line of [MaxScanTokenSize] bytes or more comes
    after such lines only, [readGomrFile] returns the error [ErrTooLong] of
    the scanner and no record. *)
Theorem load_first_two_fields (path : string) (w : World) (content : string) :
  readAll path w = inr content ->
  (Forall (fun l => String.length l < MaxScanTokenSize /\ 2 <= length (Fields l))
          (rawLines content) ->
   exists rs,
     readGomrFile path w = (Ok rs, w)
     /\ Forall2 firstTwoFields (rawLines content) rs)
  /\ (forall (good : list string) (long : string) (rest : list string),
        rawLines content = good ++ long :: rest ->
        Forall (fun l => String.length l < MaxScanTokenSize /\ 2 <= length (Fields l))
               good ->
        MaxScanTokenSize <= String.length long ->
        readGomrFile path w = (Err ErrTooLong, w)).
Proof.
  intros Hr. split.
  - intros Hls. unfold readGomrFile. rewrite Hr.
    destruct (scanLoop_first_two (rawLines content) Hls []) as (rs & Hrs & HF).
    exists rs. by rewrite Hrs.
  - intros good long rest Hsplit Hgood Hlong. unfold readGomrFile. rewrite Hr, Hsplit.
    destruct (scanLoop_good_prefix good (long :: rest) Hgood []) as [rs Hrs].
    rewrite Hrs, scanLoop_cons. apply Nat.leb_le in Hlong. by rewrite Hlong.
Qed.

(** The same for a store given line by line, each line ended by a
    newline. *)
Lemma load_lines_first_two_fields (path : string) (w : World) (ls : list string) :
  readAll path w = inr (unlines ls) ->
  Forall (fun l => noNewline l = true /\ String.length l < MaxScanTokenSize
                   /\ 2 <= length (Fields l)) ls ->
  exists rs, readGomrFile path w = (Ok rs, w) /\ Forall2 firstTwoFields ls rs.
Proof.
  intros Hr Hls.
  assert (Hraw : rawLines (unlines ls) = ls).
  { apply rawLines_unlines. eapply Forall_impl; [exact Hls | by intros l (? & _)]. }
  unfold readGomrFile. rewrite Hr, Hraw.
  destruct (scanLoop_first_two ls) with (acc := @nil replace) as (rs & Hrs & HF).
  { eapply Forall_impl; [exact Hls | by intros l (_ & ? & ?)]. }
  exists rs. by rewrite Hrs.
Qed.

Lemma readAll_worldStore (content : string) :
  readAll "/m/.gomr" (worldStore content) = inr content.
Proof. reflexivity. Qed.

(** A store of two lines, the second one without a newline at its end; and
    a store whose second line is too long. *)
Lemma load_first_two_fields_witness :
  (exists rs,
     readGomrFile "/m/.gomr" (worldStore ("a /x/a extra" ++ nl ++ "b !/y/b c d"))
     = (Ok rs, worldStore ("a /x/a extra" ++ nl ++ "b !/y/b c d"))
     /\ Forall2 firstTwoFields
          (rawLines ("a /x/a extra" ++ nl ++ "b !/y/b c d")) rs)
  /\ readGomrFile "/m/.gomr" (worldStore (unlines ["a /x/a extra"; longLine]))
     = (Err ErrTooLong, worldStore (unlines ["a /x/a extra"; longLine])).
Proof.
  split.
  - apply (proj1 (load_first_two_fields "/m/.gomr"
             (worldStore ("a /x/a extra" ++ nl ++ "b !/y/b c d"))
             ("a /x/a extra" ++ nl ++ "b !/y/b c d")%string
             (readAll_worldStore _))).
    change (rawLines ("a /x/a extra" ++ nl ++ "b !/y/b c d"))
      with ["a /x/a extra"; "b !/y/b c d"].
    constructor; [|constructor; [|constructor]];
      (split; [apply Nat.ltb_lt; vm_compute; reflexivity | vm_compute; lia]).
  - apply (proj2 (load_first_two_fields "/m/.gomr"
             (worldStore (unlines ["a /x/a extra"; longLine]))
             (unlines ["a /x/a extra"; longLine])
             (readAll_worldStore _)) ["a /x/a extra"] longLine []).
    + apply rawLines_unlines.
      constructor; [reflexivity|]. constructor; [|constructor].
      vm_compute. reflexivity.
    + constructor; [|constructor].
      split; [apply Nat.ltb_lt; vm_compute; reflexivity | vm_compute; lia].
    + apply Nat.leb_le. vm_compute. reflexivity.
Defined.

(** C10, as stated: a line of three fields followed by [MaxScanTokenSize]
    spaces does not load; the scanner gives up with [ErrTooLong]. *)
Lemma load_long_line_fails :
  noNewline longLine = true
  /\ Fields longLine = ["a"; "b"; "c"]
  /\ fst (readGomrFile "/m/.gomr" (worldStore (longLine ++ nl))) = Err ErrTooLong.
Proof. vm_compute. repeat split. Qed.

(** ** A line with fewer than two fields *)

(** X18: wherever the first line with fewer than two fields stands, loading
    the store ends in a panic there. *)
Lemma load_short_line_panics (path : string) (w : World)
    (good : list string) (bad : string) (rest : list string) :
  readAll path w = inr (unlines (good ++ bad :: rest)) ->
  Forall (fun l => noNewline l = true) (good ++ bad :: rest) ->
  Forall (fun l => String.length l < MaxScanTokenSize /\ 2 <= length (Fields l)) good ->
  String.length bad < MaxScanTokenSize ->
  length (Fields bad) < 2 ->
  fst (readGomrFile path w)
  = Panic (IndexOutOfRange (length (Fields bad)) (length (Fields bad))).
Proof.
  intros Hr Hnl Hgood Hlen Hbad. unfold readGomrFile. rewrite Hr.
  rewrite (rawLines_unlines _ Hnl).
  destruct (scanLoop_good_prefix good (bad :: rest) Hgood []) as [rs Hrs].
  rewrite Hrs. cbn [fst]. by apply scanLoop_short_line.
Qed.

(** C5: a store whose line has one field makes [readGomrFile] panic at
    [splits[1]], and an empty line makes it panic at [splits[0]]; no error is
    returned. *)
Theorem load_panics_on_short_line :
  fst (readGomrFile "/m/.gomr" (worldStore ("a" ++ nl))) = Panic (IndexOutOfRange 1 1)
  /\ fst (readGomrFile "/m/.gomr" (worldStore ("a /x/a" ++ nl ++ nl ++ "b /y/b" ++ nl)))
     = Panic (IndexOutOfRange 0 0).
Proof. vm_compute. split; reflexivity. Qed.

(** ** The directories above a path *)

Lemma walk_dirsAbove (fs : gmap string node) (p k : string) :
  walk fs p (ancestors k) = None <-> dirsAbove fs k = true.
Proof.
  unfold dirsAbove. induction (ancestors k) as [|a l IH]; simpl; [done|].
  destruct (fs !! a) as [[c| |]|]; simpl; try (split; discriminate).
  exact IH.
Qed.

Lemma cuts_prefix (k a : string) :
  a ∈ cuts k -> exists rest, k = (a ++ "/" ++ rest)%string.
Proof.
  revert a. induction k as [|c k IH]; intros a Ha; simpl in Ha.
  - by apply elem_of_nil in Ha.
  - apply elem_of_app in Ha as [Ha | Ha].
    + destruct (byte c =? 47)%nat eqn:E; [|by apply elem_of_nil in Ha].
      apply list_elem_of_singleton in Ha. subst a. exists k.
      apply Nat.eqb_eq in E. rewrite append_nil_l.
      change ("/" ++ k)%string with (String "/" k). f_equal.
      rewrite <- (ascii_nat_embedding c). unfold byte in E. by rewrite E.
    + apply list_elem_of_fmap in Ha as (a' & -> & Ha').
      destruct (IH _ Ha') as [rest ->]. by exists rest.
Qed.

(** A directory above a key is a proper prefix of it, up to a slash. *)
Lemma ancestors_prefix (k a : string) :
  a ∈ ancestors k -> exists rest, k = (a ++ "/" ++ rest)%string.
Proof.
  unfold ancestors. intros Ha. apply list_elem_of_In, filter_In in Ha as [Ha _].
  by apply cuts_prefix, list_elem_of_In.
Qed.

Lemma ancestors_not_self (k : string) : k ∉ ancestors k.
Proof.
  intros Ha. apply ancestors_prefix in Ha as [rest E].
  apply (f_equal String.length) in E. rewrite !length_append in E.
  simpl in E. lia.
Qed.

Lemma dirsAbove_ext (fs fs' : gmap string node) (k : string) :
  (forall a, a ∈ ancestors k -> fs' !! a = fs !! a) ->
  dirsAbove fs' k = dirsAbove fs k.
Proof.
  unfold dirsAbove. induction (ancestors k) as [|d dirs IH]; intros H; [reflexivity|].
  simpl. rewrite (H d) by left. f_equal. apply IH. intros a Ha. apply H. by right.
Qed.

Lemma dirsAbove_insert (fs : gmap string node) (k : string) (n : node) :
  dirsAbove (<[k := n]> fs) k = dirsAbove fs k.
Proof.
  apply dirsAbove_ext. intros a Ha. rewrite lookup_insert_ne; [reflexivity|].
  intros ->. by apply (ancestors_not_self a).
Qed.

Lemma dirsAbove_spec (fs : gmap string node) (k : string) :
  dirsAbove fs k = true <-> forall a, a ∈ ancestors k -> fs !! a = Some Directory.
Proof.
  unfold dirsAbove. rewrite forallb_forall. split.
  - intros H a Ha. apply list_elem_of_In, H in Ha.
    by destruct (fs !! a) as [[c| |]|].
  - intros H a Ha. apply list_elem_of_In, H in Ha. by rewrite Ha.
Qed.

Lemma wellFormed_spec (fs : gmap string node) :
  wellFormed fs = true
  <-> forall k n, fs !! k = Some n -> dirsAbove fs k = true.
Proof.
  unfold wellFormed. rewrite forallb_forall. split.
  - intros H k n Hk. apply (H (k, n)), list_elem_of_In, elem_of_map_to_list, Hk.
  - intros H [k n] Hin. apply list_elem_of_In, elem_of_map_to_list in Hin.
    exact (H k n Hin).
Qed.

(** In a map that stands for a file system the directories above a node
    are there, so that looking at the node first, as [lookupNode] does, is
    walking down from the root. *)
Lemma lookupNode_walks (p : string) (w : World) :
  wellFormed (files w) = true -> lookupNode p w = lookupWalking p w.
Proof.
  intros Hwf. unfold lookupNode, lookupWalking.
  destruct (String.eqb p ""); [reflexivity|].
  destruct (files w !! key w p) as [n|] eqn:E.
  - pose proof (proj1 (wellFormed_spec _) Hwf _ _ E) as Hd.
    apply (walk_dirsAbove _ p) in Hd. by rewrite Hd.
  - by destruct (walk _ _ _).
Qed.

Lemma HasPrefix_app (a b : string) : HasPrefix (a ++ b) a = true.
Proof.
  unfold HasPrefix. induction a as [|c a IH]; [by destruct b|].
  rewrite append_cons. simpl. by destruct (ascii_dec c c).
Qed.

(** Creating, truncating, writing and removing keep a file system a file
    system. *)
Lemma insert_file_wellFormed (fs : gmap string node) (k c : string) :
  wellFormed fs = true ->
  isFile (fs !! k) = true \/ (fs !! k = None /\ dirsAbove fs k = true) ->
  wellFormed (<[k := File c]> fs) = true.
Proof.
  intros Hwf Hk. rewrite wellFormed_spec in Hwf |- *. intros k' n' Hk'.
  apply dirsAbove_spec. intros a Ha.
  assert (Hak : a <> k).
  { intros ->. destruct (decide (k' = k)) as [->|Hne].
    - by apply (ancestors_not_self k).
    - rewrite lookup_insert_ne in Hk' by done.
      pose proof (proj1 (dirsAbove_spec _ _) (Hwf _ _ Hk') _ Ha) as Hd.
      destruct Hk as [Hk|[Hk _]]; rewrite Hd in Hk; discriminate. }
  rewrite lookup_insert_ne by done.
  destruct (decide (k' = k)) as [->|Hne].
  - destruct Hk as [Hk|[_ Hk]].
    + destruct (fs !! k) as [n|] eqn:E; [|discriminate].
      exact (proj1 (dirsAbove_spec _ _) (Hwf _ _ E) _ Ha).
    + exact (proj1 (dirsAbove_spec _ _) Hk _ Ha).
  - rewrite lookup_insert_ne in Hk' by done.
    exact (proj1 (dirsAbove_spec _ _) (Hwf _ _ Hk') _ Ha).
Qed.

Lemma openForWrite_wellFormed (trunc : bool) (p : string) (w : World) :
  wellFormed (files w) = true ->
  wellFormed (files (snd (openForWrite trunc p w))) = true.
Proof.
  intros Hwf. unfold openForWrite. destruct (String.eqb p ""); [exact Hwf|].
  destruct (files w !! key w p) as [[c| |]|] eqn:E; try exact Hwf.
  - destruct trunc; [|exact Hwf]. apply insert_file_wellFormed; [exact Hwf|].
    left. by rewrite E.
  - destruct (walk _ _ _) eqn:Ew; [exact Hwf|].
    apply insert_file_wellFormed; [exact Hwf|]. right.
    split; [exact E | by apply (walk_dirsAbove _ p)].
Qed.

Lemma writeString_wellFormed (f s : string) (w : World) :
  wellFormed (files w) = true ->
  wellFormed (files (snd (writeString f s w))) = true.
Proof.
  intros Hwf. unfold writeString.
  destruct (files w !! f) as [[c| |]|] eqn:E; try exact Hwf.
  apply insert_file_wellFormed; [exact Hwf|]. left. by rewrite E.
Qed.

Lemma Remove_wellFormed (p : string) (w : World) :
  wellFormed (files w) = true ->
  wellFormed (files (snd (Remove p w))) = true.
Proof.
  intros Hwf. unfold Remove.
  assert (Hdel : (files w !! key w p = Some Directory ->
                  emptyDir (key w p) (files w) = true) ->
                 wellFormed (delete (key w p) (files w)) = true).
  { intros Hempty. rewrite wellFormed_spec in Hwf |- *. intros k' n' Hk'.
    apply lookup_delete_Some in Hk' as [Hne Hk'].
    apply dirsAbove_spec. intros a Ha.
    pose proof (proj1 (dirsAbove_spec _ _) (Hwf _ _ Hk') _ Ha) as Hd.
    rewrite lookup_delete_ne; [exact Hd|]. intros <-.
    specialize (Hempty Hd). unfold emptyDir in Hempty.
    rewrite forallb_forall in Hempty.
    assert (Hin : In (k', n') (map_to_list (files w)))
      by (by apply list_elem_of_In, elem_of_map_to_list).
    apply Hempty in Hin. cbn [fst] in Hin.
    apply ancestors_prefix in Ha as [rest ->].
    rewrite <- append_assoc, HasPrefix_app in Hin. discriminate. }
  unfold lookupNode. destruct (String.eqb p ""); [exact Hwf|].
  destruct (files w !! key w p) as [[c| |]|] eqn:E; try exact Hwf.
  - apply Hdel. discriminate.
  - destruct (emptyDir _ _) eqn:Ee; [|exact Hwf]. by apply Hdel.
  - by destruct (walk _ _ _).
Qed.

Example worlds_wellFormed :
  wellFormed (files worldAB) = true /\ wellFormed (files worldNested) = true
  /\ wellFormed (files worldFresh) = true /\ wellFormed (files worldSelf) = true
  /\ wellFormed (files worldNoStore) = true.
Proof. vm_compute. repeat split. Qed.

Example walk_ex :
  Stat "/x/a/go.mod/sub" worldAB = inl (ErrNotDir "/x/a/go.mod/sub")
  /\ Stat "/nope/go.mod" worldAB = inl (ErrNotExist "/nope/go.mod")
  /\ Stat "/x/a/none" worldAB = inl (ErrNotExist "/x/a/none")
  /\ Stat "/x/a" worldAB = inr Directory
  /\ ancestors "/x/a/go.mod" = ["/x"; "/x/a"].
Proof. vm_compute. repeat split. Qed.

(** ** The record store: what [writeGomrFile] and [addRun] write *)

Lemma writeLoop_content (f : string) (rs : list replace) :
  forall (w : World) (c : string),
    files w !! f = Some (File c) ->
    writeLoop f rs w
    = (Ok tt, setFiles (<[f := File (c ++ joinAll (map writeLine rs))]> (files w)) w).
Proof.
  induction rs as [|r rs IH]; intros w c Hc; unfold joinAll; simpl.
  - unfold ret. f_equal. destruct w as [d g fs ex so se]; unfold setFiles; simpl in *.
    f_equal. rewrite append_nil_r. symmetry. by apply insert_id.
  - unfold bind, writeString. rewrite Hc.
    rewrite (IH _ (c ++ writeLine r)%string); [|simpl; by rewrite lookup_insert_eq].
    f_equal. unfold setFiles; simpl. f_equal.
    by rewrite insert_insert_eq, append_assoc.
Qed.

(** [writeGomrFile] replaces the content of the file by the lines of the
    records, each of them starting with the text of the format string. *)
Lemma writeGomrFile_content (path : string) (rs : list replace) (w : World) :
  path <> "" ->
  isFile (files w !! key w path) = true
  \/ (files w !! key w path = None /\ dirsAbove (files w) (key w path) = true) ->
  writeGomrFile path rs w
  = (Ok tt, setFiles (<[key w path := File (joinAll (map writeLine rs))]> (files w)) w).
Proof.
  intros Hp Hf. unfold writeGomrFile, bind, wrapping, openForWrite, Close, ret.
  apply String.eqb_neq in Hp. rewrite Hp.
  assert (Hset : forall fs, key (setFiles fs w) path = key w path) by reflexivity.
  destruct (files w !! key w path) as [[c| |]|] eqn:E;
    try (destruct Hf as [Hf|[Hf _]]; simpl in Hf; congruence).
  - rewrite (writeLoop_content _ rs _ ""); [|simpl; by rewrite lookup_insert_eq].
    simpl. unfold setFiles; simpl. by rewrite insert_insert_eq.
  - destruct Hf as [Hf|[_ Hf]]; [discriminate|].
    apply (walk_dirsAbove _ path) in Hf. rewrite Hf.
    rewrite (writeLoop_content _ rs _ ""); [|simpl; by rewrite lookup_insert_eq].
    simpl. unfold setFiles; simpl. by rewrite insert_insert_eq.
Qed.

(** The line of a record without its newline. *)
Lemma writeLine_split (r : replace) :
  writeLine r
  = (("%s %s " ++ ModuleName r ++ " "
      ++ (if AddGoMod r then "!" ++ AbsPath r else AbsPath r)) ++ nl)%string.
Proof.
  unfold writeLine, Sprintln. cbn [String.concat].
  by rewrite !append_assoc.
Qed.

Lemma Fields_format (t : string) :
  Fields ("%s %s " ++ t) = "%s" :: "%s" :: Fields t.
Proof. destruct t; reflexivity. Qed.

Lemma noNewline_append (a b : string) :
  noNewline (a ++ b) = noNewline a && noNewline b.
Proof.
  induction a as [|c a IH]; [reflexivity|].
  rewrite append_cons. simpl. rewrite IH. by rewrite andb_assoc.
Qed.

Lemma joinAll_lines (ls : list string) :
  joinAll (map (fun l => (l ++ nl)%string) ls) = unlines ls.
Proof.
  induction ls as [|l ls IH]; [reflexivity|].
  simpl. unfold joinAll in *. simpl. rewrite IH. by rewrite append_assoc.
Qed.

(** X17: saved to a file that is there, or to a free path below directories
    that are there, every record comes back as the record whose name and path
    are the two words of the format string. *)
Lemma save_then_load (path : string) (rs : list replace) (w : World) :
  path <> "" ->
  isFile (files w !! key w path) = true
  \/ (files w !! key w path = None /\ dirsAbove (files w) (key w path) = true) ->
  Forall (fun r => noNewline (ModuleName r) = true /\ noNewline (AbsPath r) = true
                   /\ String.length (writeLine r) <= MaxScanTokenSize) rs ->
  fst (readGomrFile path (after (writeGomrFile path rs) w))
  = Ok (map (fun _ => mkReplace "%s" "%s" false) rs).
Proof.
  intros Hp Hf Hrs. unfold after.
  rewrite (writeGomrFile_content path rs w Hp Hf). cbn [snd].
  set (line := fun r : replace =>
         ("%s %s " ++ ModuleName r ++ " "
          ++ (if AddGoMod r then "!" ++ AbsPath r else AbsPath r))%string).
  assert (Hcontent : joinAll (map writeLine rs) = unlines (map line rs)).
  { rewrite <- joinAll_lines, map_map. f_equal;
      try (apply map_ext; intros r; apply writeLine_split). }
  rewrite Hcontent.
  unfold readGomrFile, readAll, lookupNode.
  apply String.eqb_neq in Hp. rewrite Hp.
  change (key (setFiles _ w) path) with (key w path).
  cbn [files setFiles]. rewrite lookup_insert_eq. cbn [fst].
  rewrite rawLines_unlines.
  2:{ apply Forall_map. eapply Forall_impl; [exact Hrs|]. intros r (Hn & Ha & _).
      unfold line. cbn beta. rewrite !noNewline_append, Hn.
      destruct (AddGoMod r); [rewrite noNewline_append|]; by rewrite Ha. }
  clear Hcontent Hf.
  enough (Hgen : forall acc,
             scanLoop (map line rs) acc
             = Ok (acc ++ map (fun _ => mkReplace "%s" "%s" false) rs))
    by apply (Hgen []).
  induction Hrs as [|r rs (Hn & Ha & Hlen) _ IH]; intros acc.
  - simpl. by rewrite app_nil_r.
  - cbn [map]. rewrite scanLoop_cons.
    assert (Hshort : (MaxScanTokenSize <=? String.length (line r))%nat = false).
    { apply Nat.leb_gt. rewrite writeLine_split in Hlen. fold (line r) in Hlen.
      rewrite length_append in Hlen. change (String.length nl) with 1 in Hlen. lia. }
    rewrite Hshort, parseLine_dropCR.
    unfold line at 1.
    rewrite (parseLine_first_two _ "%s" "%s" _ (Fields_format _)).
    cbn [HasPrefix]. change (String.prefix "!" "%s") with false. cbv iota.
    rewrite IH. by rewrite <- app_assoc.
Qed.

(** C1: saving the single record [a /x/a] puts the line [%s %s a /x/a] in
    the store, and loading that store yields the record whose name and path
    are both [%s]: the sequence read back is not the sequence written. *)
Theorem save_load_roundtrip_broken :
  let rs := [mkReplace "a" "/x/a" false] in
  let saved := writeGomrFile "/m/.gomr" rs worldFresh in
  fst saved = Ok tt
  /\ files (snd saved) !! "/m/.gomr" = Some (File ("%s %s a /x/a" ++ nl))
  /\ fst (readGomrFile "/m/.gomr" (snd saved)) = Ok [mkReplace "%s" "%s" false]
  /\ fst (readGomrFile "/m/.gomr" (snd saved)) <> Ok rs.
Proof. vm_compute. repeat split; discriminate. Qed.

(** C4: after [add a /x/a] and [add b /y/b] (the second one with a
    synthesized [go.mod]) the store is the single unterminated line
    [a /x/ab !/y/b], which loads as one record, whereas [writeGomrFile] writes
    the same two records as two lines that start with [%s %s]. *)
Theorem add_and_save_encodings_differ :
  let added := after (addRun goStub 1 ["b"; "/y/b"])
                 (after (addRun goStub 1 ["a"; "/x/a"]) worldFresh) in
  let rs := [mkReplace "a" "/x/a" false; mkReplace "b" "/y/b" true] in
  fst (addRun goStub 1 ["a"; "/x/a"] worldFresh) = Ok tt
  /\ fst (addRun goStub 1 ["b"; "/y/b"] (after (addRun goStub 1 ["a"; "/x/a"]) worldFresh))
     = Ok tt
  /\ files added !! "/m/.gomr" = Some (File "a /x/ab !/y/b")
  /\ rawLines "a /x/ab !/y/b" = ["a /x/ab !/y/b"]
  /\ fst (readGomrFile "/m/.gomr" added) = Ok [mkReplace "a" "/x/ab" false]
  /\ files (after (writeGomrFile "/m/.gomr" rs) worldFresh) !! "/m/.gomr"
     = Some (File ("%s %s a /x/a" ++ nl ++ "%s %s b !/y/b" ++ nl))
  /\ addLine "b" "/y/b" true <> writeLine (mkReplace "b" "/y/b" true).
Proof. vm_compute. repeat split; discriminate. Qed.

(** ** Paths: the last element survives [Clean] and [Join] *)

Lemma splitSlash_nonempty (s : string) : splitSlash s <> [].
Proof.
  destruct s as [|c s]; simpl; [discriminate|].
  destruct (byte c =? 47)%nat; [discriminate|].
  destruct (splitSlash s); discriminate.
Qed.

Lemma splitSlash_app (a b : string) :
  splitSlash (a ++ "/" ++ b) = splitSlash a ++ splitSlash b.
Proof.
  induction a as [|c a IH].
  - reflexivity.
  - rewrite append_cons. simpl. rewrite IH.
    destruct (byte c =? 47)%nat; [reflexivity|].
    pose proof (splitSlash_nonempty a) as Hne.
    destruct (splitSlash a); [congruence | reflexivity].
Qed.

Lemma lastElem_is_Some (s : string) : is_Some (lastElem s).
Proof. apply last_is_Some, splitSlash_nonempty. Qed.

Lemma lastElem_app_slash (a b : string) : lastElem (a ++ "/" ++ b) = lastElem b.
Proof.
  unfold lastElem. rewrite splitSlash_app, last_app.
  destruct (lastElem_is_Some b) as [e He]. unfold lastElem in He. by rewrite He.
Qed.

Lemma splitSlash_elements (s : string) :
  Forall (fun x => splitSlash x = [x]) (splitSlash s).
Proof.
  induction s as [|c s IH]; simpl.
  - by constructor.
  - destruct (byte c =? 47)%nat eqn:E; [by constructor|].
    destruct (splitSlash s) as [|x xs]; [by repeat constructor; simpl; rewrite E|].
    inversion IH as [|? ? Hx Hxs]; subst. constructor; [|exact Hxs].
    simpl. by rewrite E, Hx.
Qed.

Lemma lastElem_concat (xs : list string) (e : string) :
  splitSlash e = [e] -> lastElem (String.concat "/" (xs ++ [e])) = Some e.
Proof.
  intros He. induction xs as [|x xs IH].
  - simpl. unfold lastElem. by rewrite He.
  - change (String.concat "/" ((x :: xs) ++ [e]))
      with (String.concat "/" (x :: (xs ++ [e]))).
    destruct (xs ++ [e]) as [|y ys] eqn:E; [by destruct xs|].
    change (String.concat "/" (x :: y :: ys))
      with (x ++ "/" ++ String.concat "/" (y :: ys))%string.
    by rewrite lastElem_app_slash.
Qed.

Lemma cleanStep_real (rooted : bool) (out : list string) (e : string) :
  realElem e -> cleanStep rooted out e = e :: out.
Proof.
  intros (H1 & H2 & H3). unfold cleanStep.
  apply String.eqb_neq in H1, H2, H3. by rewrite H1, H2, H3.
Qed.

Lemma lastElem_Clean (s e : string) :
  lastElem s = Some e -> realElem e -> lastElem (Clean s) = Some e.
Proof.
  intros Hl Hr. unfold Clean.
  destruct (String.eqb s "") eqn:Es.
  { apply String.eqb_eq in Es. subst s. destruct Hr as [Hne _].
    inversion Hl; congruence. }
  pose proof Hl as Hl'. unfold lastElem in Hl'.
  apply last_Some in Hl' as [init Hinit].
  assert (He : splitSlash e = [e]).
  { pose proof (splitSlash_elements s) as HF. rewrite Hinit in HF.
    apply Forall_app in HF as [_ HF]. by inversion HF. }
  rewrite Hinit, fold_left_app. simpl. rewrite (cleanStep_real _ _ _ Hr). simpl.
  set (out := rev (fold_left (cleanStep (IsAbs s)) init [])).
  pose proof (lastElem_concat out e He) as Hb.
  destruct (IsAbs s).
  - change ("/" ++ String.concat "/" (out ++ [e]))%string
      with ("" ++ "/" ++ String.concat "/" (out ++ [e]))%string.
    by rewrite lastElem_app_slash.
  - destruct (String.eqb (String.concat "/" (out ++ [e])) "") eqn:E; [|exact Hb].
    apply String.eqb_eq in E. rewrite E in Hb. destruct Hr as [Hne _].
    inversion Hb; congruence.
Qed.

Lemma lastElem_Join (x e : string) :
  realElem e -> splitSlash e = [e] -> lastElem (Join [x; e]) = Some e.
Proof.
  intros Hr He. pose proof Hr as (Hne & _). apply String.eqb_neq in Hne.
  assert (Hle : lastElem e = Some e) by (unfold lastElem; by rewrite He).
  simpl. rewrite Hne. destruct (String.eqb x "").
  - by apply lastElem_Clean.
  - apply lastElem_Clean; [|exact Hr]. by rewrite lastElem_app_slash.
Qed.

Lemma lastElem_key (w : World) (p e : string) :
  lastElem p = Some e -> realElem e -> lastElem (key w p) = Some e.
Proof.
  intros Hl Hr. unfold key. destruct (IsAbs p); [by apply lastElem_Clean|].
  assert (Hp : String.eqb p "" = false).
  { apply String.eqb_neq. intros ->. destruct Hr as [Hne _].
    inversion Hl; congruence. }
  simpl. rewrite Hp. destruct (String.eqb (cwd w) "").
  - by apply lastElem_Clean.
  - apply lastElem_Clean; [|exact Hr]. by rewrite lastElem_app_slash.
Qed.

Lemma realElem_manifest : realElem "go.mod".
Proof. repeat split; discriminate. Qed.

Lemma realElem_store : realElem gomrFilename.
Proof. repeat split; discriminate. Qed.

Lemma lastElem_manifest_key (w : World) (x : string) :
  lastElem (key w (Join [x; "go.mod"])) = Some "go.mod".
Proof.
  apply lastElem_key; [|apply realElem_manifest].
  apply lastElem_Join; [apply realElem_manifest | reflexivity].
Qed.

Lemma lastElem_store_key (w : World) (x : string) :
  lastElem (key w (Join [x; gomrFilename])) = Some gomrFilename.
Proof.
  apply lastElem_key; [|apply realElem_store].
  apply lastElem_Join; [apply realElem_store | reflexivity].
Qed.

(** No [go.mod] is the store file. *)
Lemma manifest_key_not_store (w w' : World) (x y : string) :
  key w (Join [x; "go.mod"]) <> key w' (Join [y; gomrFilename]).
Proof.
  intros E. pose proof (lastElem_manifest_key w x) as H1.
  rewrite E, lastElem_store_key in H1. discriminate.
Qed.

(** ** [add]: the path of the package *)

Lemma Clean_nonempty (p : string) : Clean p <> "".
Proof.
  unfold Clean. destruct (String.eqb p ""); [discriminate|].
  destruct (IsAbs p).
  - rewrite append_cons. discriminate.
  - destruct (String.eqb _ "") eqn:E; [discriminate|].
    by apply String.eqb_neq in E.
Qed.

Lemma Join_src_nonempty (gopath name : string) : Join [gopath; "src"; name] <> "".
Proof.
  simpl. destruct (String.eqb gopath ""); apply Clean_nonempty.
Qed.

Lemma length_nonempty (s : string) : s <> "" -> (String.length s =? 0)%nat = false.
Proof. destruct s; [congruence | reflexivity]. Qed.

(** C9 (amended): [add name] without a path is [add name p] for the path
    [p] made of [GOPATH], [src] and the name; and when [os.Stat] fails on the
    path of the package, given or made so, [add] returns at once and leaves
    the world as it was: no [go] command has run, the store is untouched.  The
    error it returns is that of the missing path when the error of [os.Stat]
    is a not-exist error, and the error of [os.Stat] itself otherwise. *)
Theorem add_missing_path_fails_first
    (goTool : string -> Cmd -> gmap string node -> exit * gmap string node)
    (fuel : nat) (name : string) (w : World) :
  addRun goTool fuel [name] w
  = addRun goTool fuel [name; Join [GOPATH w; "src"; name]] w
  /\ forall (rest : list string) (e : error),
       let given := match rest with p :: _ => p | [] => "" end in
       let absPath :=
         if String.eqb given "" then Join [GOPATH w; "src"; name] else given in
       Stat absPath w = inl e ->
       addRun goTool fuel (name :: rest) w
       = (Err (if IsNotExist e then ErrPathMissing absPath else e), w).
Proof.
  split.
  - unfold addRun. rewrite (length_nonempty _ (Join_src_nonempty (GOPATH w) name)).
    reflexivity.
  - intros rest e given absPath Hs. unfold addRun. fold given.
    assert (Hp : (if (String.length given =? 0)%nat
                  then gopath <- GetenvGOPATH ;; ret (Join [gopath; "src"; name])
                  else ret given) w = (Ok absPath, w)).
    { subst absPath. destruct given; reflexivity. }
    unfold bind at 1. rewrite Hp. unfold bind at 1. rewrite Hs.
    by destruct (IsNotExist e).
Qed.

Lemma add_missing_path_witness :
  addRun goStub 1 ["pkg"] worldFresh = (Err (ErrPathMissing "/ws/src/pkg"), worldFresh).
Proof.
  apply (proj2 (add_missing_path_fails_first goStub 1 "pkg" worldFresh) []
           (ErrNotExist "/ws/src/pkg")).
  reflexivity.
Defined.

(** C9, as stated: nothing exists at the path [/x/a/go.mod/sub], which runs
    through the regular file [/x/a/go.mod]; [os.Stat] fails there with
    [ENOTDIR], which is no not-exist error, and [add] returns that error, not
    the error of the missing path. *)
Lemma add_below_file_raw_error :
  files worldFresh !! "/x/a/go.mod/sub" = None
  /\ files worldFresh !! "/x/a/go.mod" = Some (File ("module a" ++ nl))
  /\ addRun goStub 1 ["pkg"; "/x/a/go.mod/sub"] worldFresh
     = (Err (ErrNotDir "/x/a/go.mod/sub"), worldFresh)
  /\ fst (addRun goStub 1 ["pkg"; "/x/a/go.mod/sub"] worldFresh)
     <> Err (ErrPathMissing "/x/a/go.mod/sub").
Proof.
  split; [reflexivity|]. split; [reflexivity|].
  split; [vm_compute; reflexivity | vm_compute; discriminate].
Qed.

(** ** The gateway and the log of its invocations *)

Section Runs.

Variable goTool : string -> Cmd -> gmap string node -> exit * gmap string node.

Lemma since_app (w w' : World) (cs : list (Cmd * bool)) :
  execs w' = execs w ++ cs -> since w w' = cs.
Proof. intros H. unfold since. rewrite H. apply drop_app_length. Qed.

Lemma gomod_run (dir : string) (args : list string) (w : World) :
  gomod goTool dir args w
  = match goTool (cwd w) (goCmd dir args) (files w) with
    | (Exit0, fs) => (Ok tt, logExec (goCmd dir args) true (setFiles fs w))
    | (ExitFail b, fs) =>
        (Err ErrExit,
         toStderr (b ++ nl) (logExec (goCmd dir args) false (setFiles fs w)))
    end.
Proof. reflexivity. Qed.


Lemma findModuleRoot_run (fuel : nat) (w : World) :
  findModuleRoot fuel w = (findModuleRootLoop fuel (cwd w) w, w).
Proof. reflexivity. Qed.

Lemma findModuleRootLoop_same (fuel : nat) (d root : string) (w : World) :
  findModuleRootLoop fuel d w = Ok root -> root = d.
Proof.
  induction fuel as [|fuel IH]; simpl; [discriminate|].
  destruct (String.eqb d "" || String.eqb d "/"); [discriminate|].
  destruct (Stat _ w) as [e|f].
  - destruct (IsNotExist e); [exact IH | discriminate].
  - destruct (negb (IsDir f)); [congruence | exact IH].
Qed.

Lemma readGomrFile_world (path : string) (w : World) :
  snd (readGomrFile path w) = w.
Proof. unfold readGomrFile. by destruct (readAll path w). Qed.

Lemma isInit_goCmd (dir name : string) (rest : list string) :
  isInit (goCmd dir ("init" :: name :: rest)) = true.
Proof. reflexivity. Qed.

Lemma isInit_not_isEdit (c : Cmd) : isInit c = true -> isEdit c = false.
Proof.
  unfold isInit, isEdit. destruct (Args c) as [|m [|sub rest]]; try discriminate.
  intros H. apply andb_prop in H as [_ H]. apply String.eqb_eq in H. subst sub.
  by rewrite andb_false_r.
Qed.

Lemma upLoop_cons (r : replace) (rs : list replace) (args : list string) (w : World) :
  upLoop goTool (r :: rs) args w
  = if AddGoMod r then
      match goTool (cwd w) (goCmd (AbsPath r) ["init"; ModuleName r]) (files w) with
      | (Exit0, fs) =>
          upLoop goTool rs (args ++ [replaceArg r])
            (logExec (goCmd (AbsPath r) ["init"; ModuleName r]) true (setFiles fs w))
      | (ExitFail b, fs) =>
          (Err (Wrap ErrExit ("failed to go mod init in dir: " ++ AbsPath r)),
           toStderr (b ++ nl)
             (logExec (goCmd (AbsPath r) ["init"; ModuleName r]) false
                (setFiles fs w)))
      end
    else upLoop goTool rs (args ++ [replaceArg r]) w.
Proof.
  simpl. unfold bind, wrapping, ret. destruct (AddGoMod r); [|reflexivity].
  rewrite gomod_run. by destruct (goTool (cwd w) _ (files w)) as [[|b] fs].
Qed.

(** The loop of [upRun] runs [go mod init] commands only; it ends with the
    arguments of all the records when they all succeed, and with an error
    at the first one that fails. *)
Lemma upLoop_execs (rs : list replace) :
  forall (args : list string) (w : World) (res : outcome (list string)) (w' : World),
    upLoop goTool rs args w = (res, w') ->
    cwd w' = cwd w
    /\ exists cs,
         execs w' = execs w ++ cs
         /\ Forall (fun e => isInit (fst e) = true) cs
         /\ match res with
            | Ok args' =>
                args' = args ++ map replaceArg rs
                /\ Forall (fun e => snd e = true) cs
            | Err _ => exists c, (c, false) ∈ cs
            | _ => False
            end.
Proof.
  induction rs as [|r rs IH]; intros args w res w' Hrun.
  - simpl in Hrun. unfold ret in Hrun. inversion Hrun; subst.
    split; [reflexivity|]. exists []. rewrite !app_nil_r. by repeat split.
  - rewrite upLoop_cons in Hrun. destruct (AddGoMod r).
    + destruct (goTool (cwd w) _ (files w)) as [[|b] fs].
      * apply IH in Hrun as (Hc & cs & He & Hi & Hm).
        split; [exact Hc|].
        exists ((goCmd (AbsPath r) ["init"; ModuleName r], true) :: cs).
        split; [rewrite He; simpl; by rewrite <- app_assoc|].
        split; [by constructor|].
        destruct res; try done.
        -- destruct Hm as [-> Hm]. split; [by rewrite <- app_assoc | by constructor].
        -- destruct Hm as [c Hm]. exists c. by right.
      * inversion Hrun; subst. simpl. split; [reflexivity|].
        exists [(goCmd (AbsPath r) ["init"; ModuleName r], false)].
        repeat split; [by repeat constructor|]. eexists. by left.
    + apply IH in Hrun as (Hc & cs & He & Hi & Hm).
      split; [exact Hc|]. exists cs. repeat split; try done.
      destruct res; try done.
      destruct Hm as [-> Hm]. split; [by rewrite <- app_assoc | done].
Qed.

(** How the loop of [upRun] ends: with the arguments of all the records
    after the [init] of every synthesized one has succeeded, or with the
    wrapped error of the first [init] that fails, which is the last command
    it runs.  It prints nothing. *)
Lemma upLoop_outcome (rs : list replace) :
  forall (args : list string) (w : World) (res : outcome (list string)) (w' : World),
    upLoop goTool rs args w = (res, w') ->
    stdout w' = stdout w
    /\ match res with
       | Ok args' =>
           args' = args ++ map replaceArg rs
           /\ execs w'
              = execs w ++ map (fun r => (initCmd r, true)) (List.filter AddGoMod rs)
       | Err e =>
           exists pre r post,
             rs = pre ++ r :: post /\ AddGoMod r = true
             /\ execs w'
                = execs w
                  ++ map (fun r => (initCmd r, true)) (List.filter AddGoMod pre)
                  ++ [(initCmd r, false)]
             /\ e = Wrap ErrExit ("failed to go mod init in dir: " ++ AbsPath r)
       | _ => False
       end.
Proof.
  induction rs as [|r rs IH]; intros args w res w' Hrun.
  - simpl in Hrun. unfold ret in Hrun. inversion Hrun; subst.
    by rewrite !app_nil_r.
  - rewrite upLoop_cons in Hrun. destruct (AddGoMod r) eqn:Er.
    + fold (initCmd r) in Hrun.
      destruct (goTool (cwd w) (initCmd r) (files w)) as [[|b] fs].
      * apply IH in Hrun as (Hs & Hm). split; [exact Hs|].
        destruct res as [args'| e | p |]; try done.
        -- destruct Hm as [-> He]. split; [by rewrite <- app_assoc|].
           simpl. rewrite Er. simpl. rewrite He. simpl. by rewrite <- app_assoc.
        -- destruct Hm as (pre & r' & post & -> & Hr' & He & ->).
           exists (r :: pre), r', post. repeat split; try done.
           simpl. rewrite Er. simpl. rewrite He. simpl. by rewrite <- app_assoc.
      * inversion Hrun; subst. split; [reflexivity|].
        exists [], r, rs. by repeat split.
    + apply IH in Hrun as (Hs & Hm). split; [exact Hs|].
      destruct res as [args'| e | p |]; try done.
      * destruct Hm as [-> He]. split; [by rewrite <- app_assoc|].
        simpl. by rewrite Er.
      * destruct Hm as (pre & r' & post & -> & Hr' & He & ->).
        exists (r :: pre), r', post. repeat split; try done.
        simpl. by rewrite Er.
Qed.

(** What [upRun] asks of the gateway once the host module is found and the
    store is loaded: the [init] commands of the loop, then, unless one of
    them failed, one [edit] with the [-replace] arguments of the records, in
    the working directory of the process. *)
Lemma upRun_run (fuel : nat) (w : World) (root : string) (rs : list replace) :
  findModuleRootLoop fuel (cwd w) w = Ok root ->
  readGomrFile (Join [root; gomrFilename]) w = (Ok rs, w) ->
  upRun goTool fuel w
  = match upLoop goTool rs [] w with
    | (Ok replaceArgs, w1) =>
        (gomod goTool "" ("edit" :: replaceArgs) ;;;
         Print ("replace lines installed" ++ nl)) w1
    | (Err e, w1) => (Err e, w1)
    | (Panic p, w1) => (Panic p, w1)
    | (Spin, w1) => (Spin, w1)
    end.
Proof.
  intros Hroot Hread. unfold upRun.
  unfold bind at 1. rewrite findModuleRoot_run, Hroot.
  unfold bind at 1. rewrite Hread. reflexivity.
Qed.

Lemma upRun_since (fuel : nat) (w : World) (root : string) (rs : list replace) :
  findModuleRootLoop fuel (cwd w) w = Ok root ->
  readGomrFile (Join [root; gomrFilename]) w = (Ok rs, w) ->
  let w' := after (upRun goTool fuel) w in
  exists cs,
    Forall (fun e => isInit (fst e) = true) cs
    /\ ((since w w' = cs /\ exists c, (c, false) ∈ cs)
        \/ (Forall (fun e => snd e = true) cs
            /\ exists ok,
                 since w w'
                 = cs ++ [(mkCmd None ("mod" :: "edit" :: map replaceArg rs), ok)])).
Proof.
  intros Hroot Hread. cbv zeta. unfold after.
  rewrite (upRun_run fuel w root rs Hroot Hread).
  destruct (upLoop goTool rs [] w) as [res w1] eqn:Hloop.
  apply upLoop_execs in Hloop as (Hc & cs & He & Hi & Hm).
  exists cs. split; [exact Hi|].
  destruct res as [args| e | p |]; try done.
  - destruct Hm as [-> Hm]. right. split; [exact Hm|].
    exists (succeeded (fst (goTool (cwd w1) (goCmd "" ("edit" :: map replaceArg rs))
                           (files w1)))).
    apply since_app. unfold bind. rewrite gomod_run.
    destruct (goTool (cwd w1) _ (files w1)) as [[|b] fs]; simpl;
      rewrite He, <- app_assoc; reflexivity.
  - left. split; [by apply since_app | exact Hm].
Qed.

End Runs.

(** ** What a computation keeps *)

Section Keeps.

Variable R : World -> World -> Prop.
Hypothesis R_refl : forall w, R w w.
Hypothesis R_trans : forall w1 w2 w3, R w1 w2 -> R w2 w3 -> R w1 w3.





Lemma keeps_findModuleRoot (fuel : nat) : keeps R (findModuleRoot fuel).
Proof. intros w. apply R_refl. Qed.

Lemma keeps_readGomrFile (path : string) : keeps R (readGomrFile path).
Proof. intros w. rewrite readGomrFile_world. apply R_refl. Qed.



End Keeps.





Lemma sameExecs_removeTolerant (p msg : string) :
  keeps sameExecs (removeTolerant p msg).
Proof.
  intros w. unfold removeTolerant, Remove.
  destruct (lookupNode p w) as [e|[c| |]]; simpl.
  - by destruct (negb (IsNotExist e)).
  - reflexivity.
  - by destruct (emptyDir _ _).
  - reflexivity.
Qed.


(** ** [up] *)

Lemma since_refl (w : World) : since w w = [].
Proof. unfold since. apply drop_all. Qed.

Lemma upRun_found_or_quiet
    (goTool : string -> Cmd -> gmap string node -> exit * gmap string node)
    (fuel : nat) (w : World) :
  since w (after (upRun goTool fuel) w) = []
  \/ exists root rs,
       findModuleRootLoop fuel (cwd w) w = Ok root
       /\ readGomrFile (Join [root; gomrFilename]) w = (Ok rs, w).
Proof.
  destruct (findModuleRootLoop fuel (cwd w) w) as [root| e | p |] eqn:Hroot;
    try (left; unfold after, upRun; unfold bind at 1;
         rewrite findModuleRoot_run, Hroot; apply since_refl).
  pose proof (readGomrFile_world (Join [root; gomrFilename]) w) as Hw.
  destruct (readGomrFile (Join [root; gomrFilename]) w) as [[rs| e | p |] w1] eqn:Hread;
    simpl in Hw; subst w1;
    try (left; unfold after, upRun; unfold bind at 1;
         rewrite findModuleRoot_run, Hroot; unfold bind at 1; rewrite Hread;
         apply since_refl).
  right. by exists root, rs.
Qed.

(** C6: with the records [a /x/a] and [b !/y/b] in the store, [up] runs
    [go mod init b] in [/y/b] first.  When that succeeds it runs one
    [go mod edit] with the two [-replace] arguments and nothing else, and
    reports the installation when the [edit] succeeds too; when the [init]
    fails, [up] runs nothing else, prints nothing and returns the wrapped
    error of the [init].  And for every store: when an [init] of [up] has
    failed, it is the [init] of a synthesized record of the store and the last
    command [up] has run, after the [init] of the synthesized records before
    it, which have succeeded; [up] returns the wrapped error of that [init],
    prints nothing, and has run no [edit]. *)
Theorem up_scenario_and_abort
    (goTool : string -> Cmd -> gmap string node -> exit * gmap string node) :
  (forall (fuel : nat) (w : World) (m : string),
     String.eqb (cwd w) "" || String.eqb (cwd w) "/" = false ->
     Stat (Join [cwd w; "go.mod"]) w = inr (File m) ->
     readGomrFile (Join [cwd w; gomrFilename]) w
     = (Ok [mkReplace "a" "/x/a" false; mkReplace "b" "/y/b" true], w) ->
     let init := mkCmd (Some "/y/b") ["mod"; "init"; "b"] in
     let edit := mkCmd None ["mod"; "edit"; "-replace=a=/x/a"; "-replace=b=/y/b"] in
     let ok := succeeded (fst (goTool (cwd w) init (files w))) in
     let w' := after (upRun goTool (S fuel)) w in
     exists ok',
       since w w' = (init, ok) :: (if ok then [(edit, ok')] else [])
       /\ fst (upRun goTool (S fuel) w)
          = (if ok then (if ok' then Ok tt else Err ErrExit)
             else Err (Wrap ErrExit "failed to go mod init in dir: /y/b"))
       /\ stdout w'
          = stdout w
            ++ (if ok && ok' then [("replace lines installed" ++ nl)%string] else []))
  /\ (forall (fuel : nat) (w : World),
        let w' := after (upRun goTool fuel) w in
        let ran := since w w' in
        (exists c, (c, false) ∈ ran /\ isInit c = true) ->
        exists (rs pre : list replace) (r : replace) (post : list replace),
          fst (readGomrFile (Join [cwd w; gomrFilename]) w) = Ok rs
          /\ rs = pre ++ r :: post /\ AddGoMod r = true
          /\ ran = map (fun r => (initCmd r, true)) (List.filter AddGoMod pre)
                   ++ [(initCmd r, false)]
          /\ fst (upRun goTool fuel w)
             = Err (Wrap ErrExit ("failed to go mod init in dir: " ++ AbsPath r))
          /\ stdout w' = stdout w
          /\ forall c ok, (c, ok) ∈ ran -> isEdit c = false).
Proof.
  split.
  - intros fuel w m Hd Hs Hr init edit ok w'. subst w'. unfold after.
    rewrite (upRun_run goTool (S fuel) w (cwd w)
               [mkReplace "a" "/x/a" false; mkReplace "b" "/y/b" true]);
      [|exact (findModuleRootLoop_found _ _ m _ Hd Hs) | exact Hr].
    rewrite !upLoop_cons. cbn [AddGoMod AbsPath ModuleName upLoop ret].
    change (goCmd "/y/b" ["init"; "b"]) with init. subst ok.
    destruct (goTool (cwd w) init (files w)) as [[|b] fs]; cbn [succeeded fst].
    + unfold ret, bind. cbv beta iota. rewrite gomod_run.
      change (goCmd "" ("edit" :: _)) with edit.
      exists (succeeded (fst (goTool (cwd w) edit (files (logExec init true (setFiles fs w)))))).
      change (cwd (logExec init true (setFiles fs w))) with (cwd w).
      destruct (goTool (cwd w) edit _) as [[|b] fs']; simpl.
      * split; [apply since_app; simpl; by rewrite <- app_assoc | done].
      * split; [apply since_app; simpl; by rewrite <- app_assoc|].
        split; [reflexivity | by rewrite app_nil_r].
    + exists true. simpl. split; [by apply since_app|].
      split; [reflexivity | by rewrite app_nil_r].
  - intros fuel w w' ran (c0 & Hin0 & Hi0). subst ran w'.
    destruct (upRun_found_or_quiet goTool fuel w) as [Hq | (root & rs & Hroot & Hread)].
    { rewrite Hq in Hin0. by apply elem_of_nil in Hin0. }
    pose proof (findModuleRootLoop_same _ _ _ _ Hroot) as ->.
    unfold after in *.
    rewrite (upRun_run goTool fuel w (cwd w) rs Hroot Hread) in Hin0 |- *.
    destruct (upLoop goTool rs [] w) as [res w1] eqn:Hloop.
    apply upLoop_outcome in Hloop as (Hso & Hm).
    destruct res as [args| e | p |]; try done.
    + exfalso. destruct Hm as [-> He]. simpl app in Hin0.
      assert (Hran : exists ok,
                 since w (snd ((gomod goTool "" ("edit" :: map replaceArg rs) ;;;
                                Print ("replace lines installed" ++ nl)) w1))
                 = map (fun r => (initCmd r, true)) (List.filter AddGoMod rs)
                   ++ [(goCmd "" ("edit" :: map replaceArg rs), ok)]).
      { unfold bind. rewrite gomod_run.
        destruct (goTool (cwd w1) _ (files w1)) as [[|b] fs]; eexists;
          apply since_app; simpl; rewrite He; by rewrite <- app_assoc. }
      destruct Hran as [ok Hran]. rewrite Hran in Hin0.
      apply elem_of_app in Hin0 as [Hin0 | Hin0].
      * apply list_elem_of_fmap in Hin0 as (r & Hr & _). discriminate.
      * apply list_elem_of_singleton in Hin0. inversion Hin0; subst.
        simpl in Hi0. discriminate.
    + destruct Hm as (pre & r & post & -> & Hr & He & ->).
      exists (pre ++ r :: post), pre, r, post. cbn [fst snd].
      assert (Hran : since w w1
                     = map (fun r => (initCmd r, true)) (List.filter AddGoMod pre)
                       ++ [(initCmd r, false)]) by (by apply since_app).
      split; [by rewrite Hread|]. repeat split; try done.
      intros c ok Hin. rewrite Hran in Hin. apply isInit_not_isEdit.
      apply elem_of_app in Hin as [Hin | Hin].
      * by apply list_elem_of_fmap in Hin as (r' & Hr' & _); inversion Hr'.
      * apply list_elem_of_singleton in Hin. by inversion Hin.
Qed.

Lemma up_scenario_witness :
  let w' := after (upRun goStub 1) worldAB in
  exists ok',
    since worldAB w'
    = [(mkCmd (Some "/y/b") ["mod"; "init"; "b"], true);
       (mkCmd None ["mod"; "edit"; "-replace=a=/x/a"; "-replace=b=/y/b"], ok')]
    /\ fst (upRun goStub 1 worldAB) = (if ok' then Ok tt else Err ErrExit)
    /\ stdout w'
       = stdout worldAB
         ++ (if ok' then [("replace lines installed" ++ nl)%string] else []).
Proof.
  apply (proj1 (up_scenario_and_abort goStub) 0 worldAB ("module m" ++ nl)%string);
    reflexivity.
Defined.

(** ** [remove] *)

(** C3: with the two records [foo /a] and [foo /b] in the store,
    [remove foo] copies the last record over the first and moves on without
    looking at it: the loop keeps [foo /b], and the store that is written back
    still holds a record named [foo]. *)
Theorem remove_leaves_duplicate (unicodeLower : string -> string) :
  let a := mkReplace "foo" "/a" false in
  let b := mkReplace "foo" "/b" false in
  removeLoop unicodeLower "foo" 0 [a; b] false zeroReplace = ([b], true, a)
  /\ fst (readGomrFile "/m/.gomr" (worldStore ("foo /a" ++ nl ++ "foo /b" ++ nl))) = Ok [a; b]
  /\ files (after (removeRun goStub unicodeLower 1 ["foo"])
              (worldStore ("foo /a" ++ nl ++ "foo /b" ++ nl))) !! "/m/.gomr"
     = Some (File (writeLine b)).
Proof. vm_compute. repeat split. Qed.

(** When no record of the store matches the name, the loop changes
    nothing. *)
Lemma removeLoop_no_match (unicodeLower : string -> string) (name : string)
    (rs : list replace) (i : nat) (found : bool) (deleted : replace) :
  Forall (fun r => String.eqb (ToLower unicodeLower (ModuleName r))
                              (ToLower unicodeLower name) = false) rs ->
  removeLoop unicodeLower name i rs found deleted = (rs, found, deleted).
Proof.
  intros Hrs. funelim (removeLoop unicodeLower name i rs found deleted);
    try reflexivity.
  - exfalso. rewrite Forall_forall in Hrs.
    match goal with
    | Hl : replaces !! i = Some ?r, Hm : String.eqb _ _ = true |- _ =>
        pose proof (Hrs r (list_elem_of_lookup_2 _ _ _ Hl)) as Hno;
        rewrite Hno in Hm; discriminate
    end.
  - auto.
Qed.

(** A name without a record: [remove] says so on the standard output,
    returns without an error, and neither runs a command nor writes a file. *)
Lemma removeRun_not_found
    (goTool : string -> Cmd -> gmap string node -> exit * gmap string node)
    (unicodeLower : string -> string)
    (fuel : nat) (name : string) (w : World) (root : string) (rs : list replace) :
  findModuleRoot fuel w = (Ok root, w) ->
  readGomrFile (Join [root; gomrFilename]) w = (Ok rs, w) ->
  Forall (fun r => String.eqb (ToLower unicodeLower (ModuleName r))
                              (ToLower unicodeLower name) = false) rs ->
  removeRun goTool unicodeLower fuel [name] w
  = (Ok tt, toStdout ("could not find stored replace for module: " ++ name ++ nl) w).
Proof.
  intros Hroot Hread Hrs. unfold removeRun.
  unfold bind at 1. rewrite Hroot. unfold bind at 1. rewrite Hread.
  by rewrite (removeLoop_no_match _ _ _ _ _ _ Hrs).
Qed.



(** ** [down], and [up] after it *)

Lemma storeKept_refl (ks kh : string) (w : World) : storeKept ks kh w w.
Proof. by repeat split. Qed.

Lemma storeKept_trans (ks kh : string) (w1 w2 w3 : World) :
  storeKept ks kh w1 w2 -> storeKept ks kh w2 w3 -> storeKept ks kh w1 w3.
Proof.
  intros (Hc & Hs & Hh) (Hc' & Hs' & Hh'). repeat split.
  - congruence.
  - congruence.
  - auto.
Qed.

Lemma key_cwd (w w' : World) (p : string) : cwd w' = cwd w -> key w' p = key w p.
Proof. intros H. unfold key. by rewrite H. Qed.

Lemma Remove_kept (ks kh p : string) (w : World) :
  key w p <> ks -> key w p <> kh -> storeKept ks kh w (snd (Remove p w)).
Proof.
  intros Hs Hh. unfold Remove.
  assert (Hdel : storeKept ks kh w (setFiles (delete (key w p) (files w)) w)).
  { repeat split; simpl.
    - by rewrite lookup_delete_ne.
    - by rewrite lookup_delete_ne. }
  destruct (lookupNode p w) as [e|[c| |]]; simpl; try exact Hdel;
    try apply storeKept_refl.
  destruct (emptyDir _ _); [exact Hdel | apply storeKept_refl].
Qed.

Lemma removeTolerant_kept (ks kh p msg : string) (w : World) :
  key w p <> ks -> key w p <> kh ->
  storeKept ks kh w (snd (removeTolerant p msg w)).
Proof.
  intros Hs Hh. unfold removeTolerant.
  pose proof (Remove_kept ks kh p w Hs Hh) as Hk.
  destruct (Remove p w) as [[err|] w1]; simpl in *; [|exact Hk].
  by destruct (negb (IsNotExist err)).
Qed.

Lemma removeTolerant_sameExecs (p msg : string) (w : World) :
  execs (snd (removeTolerant p msg w)) = execs w.
Proof. apply sameExecs_removeTolerant. Qed.

Lemma downLoop_cons (r : replace) (rs : list replace) (args : list string) (w : World) :
  downLoop (r :: rs) args w
  = if AddGoMod r then
      match removeTolerant (Join [AbsPath r; "go.mod"])
              "something went wrong when trying to delete the added go.mod" w with
      | (Ok _, w1) => downLoop rs (args ++ [dropArg r]) w1
      | (Err e, w1) => (Err e, w1)
      | (Panic p, w1) => (Panic p, w1)
      | (Spin, w1) => (Spin, w1)
      end
    else downLoop rs (args ++ [dropArg r]) w.
Proof. simpl. unfold bind, ret. by destruct (AddGoMod r). Qed.

(** The loop of [downRun] runs no command and removes [go.mod] files of
    synthesized targets only. *)
Lemma downLoop_kept (ks kh : string) (rs : list replace) :
  forall (args : list string) (w : World),
    (forall r, r ∈ rs -> AddGoMod r = true ->
               key w (Join [AbsPath r; "go.mod"]) <> ks
               /\ key w (Join [AbsPath r; "go.mod"]) <> kh) ->
    storeKept ks kh w (snd (downLoop rs args w))
    /\ execs (snd (downLoop rs args w)) = execs w.
Proof.
  induction rs as [|r rs IH]; intros args w Hrs.
  - simpl. split; [apply storeKept_refl | reflexivity].
  - rewrite downLoop_cons. destruct (AddGoMod r) eqn:Er.
    + destruct (Hrs r (list_elem_of_here _ _) Er) as [Hs Hh].
      pose proof (removeTolerant_kept ks kh _
                    "something went wrong when trying to delete the added go.mod"
                    w Hs Hh) as Hk.
      pose proof (removeTolerant_sameExecs (Join [AbsPath r; "go.mod"])
                    "something went wrong when trying to delete the added go.mod" w)
        as He.
      destruct (removeTolerant _ _ w) as [[[]| e | p |] w1]; simpl in Hk, He;
        try (split; [exact Hk | exact He]).
      destruct (IH (args ++ [dropArg r]) w1) as [Hk' He'].
      { intros r' Hin Hr'. rewrite !(key_cwd w w1) by apply Hk.
        apply Hrs; [by right | exact Hr']. }
      split; [eapply storeKept_trans; eauto | congruence].
    + apply IH. intros r' Hin Hr'. apply Hrs; [by right | exact Hr'].
Qed.

Lemma Stat_file (p c : string) (w : World) :
  Stat p w = inr (File c) -> p <> "" /\ files w !! key w p = Some (File c).
Proof.
  unfold Stat, lookupNode. destruct (String.eqb p "") eqn:E; [discriminate|].
  apply String.eqb_neq in E.
  destruct (files w !! key w p) as [[c'| |]|]; try discriminate.
  - intros H. split; [exact E | congruence].
  - by destruct (walk _ _ _).
Qed.

Lemma Stat_of_file (p c : string) (w : World) :
  p <> "" -> files w !! key w p = Some (File c) -> Stat p w = inr (File c).
Proof.
  intros Hp Hf. unfold Stat, lookupNode.
  apply String.eqb_neq in Hp. by rewrite Hp, Hf.
Qed.

Lemma isFile_Some (n : option node) :
  isFile n = true -> exists c, n = Some (File c).
Proof. destruct n as [[c| |]|]; try discriminate. by exists c. Qed.

Lemma readGomrFile_same (path : string) (w w1 : World) :
  cwd w1 = cwd w -> files w1 !! key w path = files w !! key w path ->
  files w !! key w path <> None ->
  fst (readGomrFile path w1) = fst (readGomrFile path w).
Proof.
  intros Hc Hf Hn. unfold readGomrFile, readAll, lookupNode.
  rewrite (key_cwd w w1 path Hc), Hf.
  destruct (String.eqb path ""); [reflexivity|].
  by destruct (files w !! key w path) as [[c| |]|].
Qed.

Lemma readGomrFile_present (path : string) (w : World) (rs : list replace) :
  readGomrFile path w = (Ok rs, w) -> files w !! key w path <> None.
Proof.
  unfold readGomrFile, readAll, lookupNode.
  destruct (String.eqb path ""); [discriminate|].
  destruct (files w !! key w path) as [[c| |]|]; try discriminate.
  by destruct (walk _ _ _).
Qed.

Section DownUp.

Variable goTool : string -> Cmd -> gmap string node -> exit * gmap string node.
Variables ks kh : string.
Variable dir : string.

(** The [go] command, run from [dir], leaves the node at [ks] as it is and
    a regular file at [kh] in place. *)
Hypothesis goTool_keeps :
  forall (c : Cmd) (fs : gmap string node),
    snd (goTool dir c fs) !! ks = fs !! ks
    /\ (isFile (fs !! kh) = true -> isFile (snd (goTool dir c fs) !! kh) = true).

Lemma gomod_kept (d : string) (args : list string) (w : World) :
  cwd w = dir -> storeKept ks kh w (snd (gomod goTool d args w)).
Proof.
  intros Hc. rewrite gomod_run. rewrite Hc.
  destruct (goTool_keeps (goCmd d args) (files w)) as [Hs Hh].
  destruct (goTool dir (goCmd d args) (files w)) as [[|b] fs]; by repeat split.
Qed.

Lemma downRun_run (fuel : nat) (w : World) (root : string) (rs : list replace) :
  findModuleRootLoop fuel (cwd w) w = Ok root ->
  readGomrFile (Join [root; gomrFilename]) w = (Ok rs, w) ->
  downRun goTool fuel w
  = match downLoop rs [] w with
    | (Ok replaceArgs, w1) =>
        (gomod goTool "" ("edit" :: replaceArgs) ;;;
         Print ("replace lines removed" ++ nl)) w1
    | (Err e, w1) => (Err e, w1)
    | (Panic p, w1) => (Panic p, w1)
    | (Spin, w1) => (Spin, w1)
    end.
Proof.
  intros Hroot Hread. unfold downRun.
  unfold bind at 1. rewrite findModuleRoot_run, Hroot.
  unfold bind at 1. rewrite Hread. reflexivity.
Qed.

(** [down] keeps the store, and the [go.mod] of the host module unless a
    record names it as a synthesized one. *)
Lemma downRun_kept (fuel : nat) (w : World) (root : string) (rs : list replace) :
  cwd w = dir ->
  ks = key w (Join [root; gomrFilename]) ->
  findModuleRootLoop fuel (cwd w) w = Ok root ->
  readGomrFile (Join [root; gomrFilename]) w = (Ok rs, w) ->
  (forall r, r ∈ rs -> AddGoMod r = true ->
             key w (Join [AbsPath r; "go.mod"]) <> kh) ->
  storeKept ks kh w (after (downRun goTool fuel) w).
Proof.
  intros Hc Hks Hroot Hread Hrs. unfold after.
  rewrite (downRun_run fuel w root rs Hroot Hread).
  destruct (downLoop_kept ks kh rs [] w) as [Hk He].
  { intros r Hin Hr. split; [|by apply Hrs].
    rewrite Hks. apply manifest_key_not_store. }
  destruct (downLoop rs [] w) as [[args| e | p |] w1]; simpl in Hk, He; try exact Hk.
  unfold bind.
  pose proof (gomod_kept "" ("edit" :: args) w1) as Hg.
  destruct (gomod goTool "" ("edit" :: args) w1) as [[[]| e | p |] w2];
    simpl in *; eapply storeKept_trans; try exact Hk; apply Hg;
    destruct Hk as [Hc1 _]; congruence.
Qed.

End DownUp.

(** [down] stops before it has done anything when the host module is not
    found or the store does not load. *)
Lemma downRun_found_or_same
    (goTool : string -> Cmd -> gmap string node -> exit * gmap string node)
    (fuel : nat) (w : World) :
  after (downRun goTool fuel) w = w
  \/ exists rs,
       findModuleRootLoop fuel (cwd w) w = Ok (cwd w)
       /\ readGomrFile (Join [cwd w; gomrFilename]) w = (Ok rs, w).
Proof.
  destruct (findModuleRootLoop fuel (cwd w) w) as [root| e | p |] eqn:Hroot;
    try (left; unfold after, downRun; unfold bind at 1;
         by rewrite findModuleRoot_run, Hroot).
  pose proof (findModuleRootLoop_same _ _ _ _ Hroot) as ->.
  pose proof (readGomrFile_world (Join [cwd w; gomrFilename]) w) as Hw.
  destruct (readGomrFile (Join [cwd w; gomrFilename]) w) as [[rs| e | p |] w1] eqn:Hread;
    simpl in Hw; subst w1;
    try (left; unfold after, downRun; unfold bind at 1;
         rewrite findModuleRoot_run, Hroot; unfold bind at 1; by rewrite Hread).
  right. by exists rs.
Qed.

(** C7 (amended): [down] itself never rewrites or deletes the store:
    whenever the [go] command leaves the store file alone, the store file
    after [down] is the one before it.  When the host module is found and the
    store loads, the store loads as the same records after [down].  When
    moreover the [go] command leaves the [go.mod] of the host module in place
    and no record names that [go.mod] as a synthesized one, [up], run after
    [down], issues no other [edit] than the one with the [-replace] arguments
    of the records the store held before [down], in the order of the store,
    and it does issue it, once and last, when all its [init] commands
    succeed. *)
Theorem down_then_up_same_replaces
    (goTool : string -> Cmd -> gmap string node -> exit * gmap string node)
    (fuel1 fuel2 : nat) (w : World) :
  let ps := Join [cwd w; gomrFilename] in
  let ks := key w ps in
  let kh := key w (Join [cwd w; "go.mod"]) in
  (forall (c : Cmd) (fs : gmap string node),
     snd (goTool (cwd w) c fs) !! ks = fs !! ks) ->
  let w1 := after (downRun goTool (S fuel1)) w in
  files w1 !! ks = files w !! ks
  /\ forall (m : string) (rs : list replace),
       String.eqb (cwd w) "" || String.eqb (cwd w) "/" = false ->
       Stat (Join [cwd w; "go.mod"]) w = inr (File m) ->
       readGomrFile ps w = (Ok rs, w) ->
       let ran := since w1 (after (upRun goTool (S fuel2)) w1) in
       let edit := mkCmd None ("mod" :: "edit" :: map replaceArg rs) in
       readGomrFile ps w1 = (Ok rs, w1)
       /\ ((forall (c : Cmd) (fs : gmap string node),
              isFile (fs !! kh) = true ->
              isFile (snd (goTool (cwd w) c fs) !! kh) = true) ->
           (forall r, r ∈ rs -> AddGoMod r = true ->
                      key w (Join [AbsPath r; "go.mod"]) <> kh) ->
           (forall c ok, (c, ok) ∈ ran -> isEdit c = true -> c = edit)
           /\ ((forall c ok, (c, ok) ∈ ran -> isInit c = true -> ok = true) ->
               exists cs ok,
                 ran = cs ++ [(edit, ok)]
                 /\ Forall (fun e => isInit (fst e) = true) cs)).
Proof.
  intros ps ks kh Hstore w1.
  assert (Hkept : forall (rs : list replace) (kh' : string),
             findModuleRootLoop (S fuel1) (cwd w) w = Ok (cwd w) ->
             readGomrFile ps w = (Ok rs, w) ->
             (forall (c : Cmd) (fs : gmap string node),
                isFile (fs !! kh') = true ->
                isFile (snd (goTool (cwd w) c fs) !! kh') = true) ->
             (forall r, r ∈ rs -> AddGoMod r = true ->
                        key w (Join [AbsPath r; "go.mod"]) <> kh') ->
             storeKept ks kh' w w1).
  { intros rs kh' Hroot Hread Hgo Hrs.
    apply (downRun_kept goTool ks kh' (cwd w)) with (root := cwd w) (rs := rs);
      try done.
    intros c fs. split; [apply Hstore | apply Hgo]. }
  assert (Hstay : forall rs,
             findModuleRootLoop (S fuel1) (cwd w) w = Ok (cwd w) ->
             readGomrFile ps w = (Ok rs, w) ->
             cwd w1 = cwd w /\ files w1 !! ks = files w !! ks).
  { intros rs Hroot Hread.
    destruct (Hkept rs ks Hroot Hread) as (Hc & Hs & _); [| |done].
    - intros c fs. by rewrite Hstore.
    - intros r _ _. apply manifest_key_not_store. }
  split.
  { destruct (downRun_found_or_same goTool (S fuel1) w) as [Hsame | (rs & Hroot & Hread)].
    - subst w1. by rewrite Hsame.
    - by destruct (Hstay rs Hroot Hread). }
  intros m rs Hd Hstat Hread ran edit.
  pose proof (findModuleRootLoop_found _ _ m fuel1 Hd Hstat) as Hroot.
  destruct (Hstay rs Hroot Hread) as [Hc Hs].
  assert (Hread1 : readGomrFile ps w1 = (Ok rs, w1)).
  { pose proof (readGomrFile_same ps w w1 Hc Hs (readGomrFile_present _ _ _ Hread))
      as Hf.
    pose proof (readGomrFile_world ps w1) as Hw.
    rewrite Hread in Hf.
    destruct (readGomrFile ps w1) as [res w2].
    cbn [fst snd] in Hf, Hw. congruence. }
  split; [exact Hread1|].
  intros Hgo Hrs. destruct (Hkept rs kh Hroot Hread Hgo Hrs) as (_ & _ & Hh).
  destruct (Stat_file _ _ _ Hstat) as [Hne Hfile].
  destruct (isFile_Some (files w1 !! kh)) as [m' Hm'].
  { apply Hh. fold kh in Hfile. by rewrite Hfile. }
  assert (Hroot1 : findModuleRootLoop (S fuel2) (cwd w1) w1 = Ok (cwd w1)).
  { apply (findModuleRootLoop_found _ _ m'); rewrite Hc; [exact Hd|].
    apply Stat_of_file; [exact Hne|]. by rewrite (key_cwd w w1 _ Hc). }
  assert (Hread1' : readGomrFile (Join [cwd w1; gomrFilename]) w1 = (Ok rs, w1))
    by (by rewrite Hc).
  destruct (upRun_since goTool (S fuel2) w1 (cwd w1) rs Hroot1 Hread1')
    as (cs & Hcs & Hcases). cbv zeta in Hcases. fold ran edit in Hcases.
  rewrite Forall_forall in Hcs.
  split.
  - intros c ok Hin He.
    destruct Hcases as [(Hran & _) | (_ & ok' & Hran)]; rewrite Hran in Hin.
    + apply Hcs in Hin. apply isInit_not_isEdit in Hin. simpl in Hin. congruence.
    + apply elem_of_app in Hin as [Hin | Hin].
      * apply Hcs in Hin. apply isInit_not_isEdit in Hin. simpl in Hin. congruence.
      * apply list_elem_of_singleton in Hin. congruence.
  - intros Hall.
    destruct Hcases as [(Hran & c & Hin) | (_ & ok' & Hran)].
    + exfalso. pose proof (Hcs _ Hin) as Hi. rewrite <- Hran in Hin.
      specialize (Hall _ _ Hin Hi). discriminate.
    + exists cs, ok'. split; [exact Hran|]. by rewrite Forall_forall.
Qed.

(** The stand-in for the [go] command only ever writes a file named
    [go.mod], and only where there is no node yet. *)
Lemma goStub_keeps (dir : string) (c : Cmd) (fs : gmap string node) (ks kh : string) :
  lastElem ks <> Some "go.mod" ->
  snd (goStub dir c fs) !! ks = fs !! ks
  /\ (isFile (fs !! kh) = true -> isFile (snd (goStub dir c fs) !! kh) = true).
Proof.
  intros Hks. unfold goStub.
  set (manifest := Join [runDir dir c; "go.mod"]).
  assert (Hm : manifest <> ks).
  { intros E. apply Hks. rewrite <- E.
    apply lastElem_Join; [apply realElem_manifest | reflexivity]. }
  destruct (Args c) as [|a [|sub rest]]; try done.
  destruct (String.eqb a "mod" && String.eqb sub "init").
  - destruct (fs !! manifest) eqn:E; [done|]. simpl. split.
    + by rewrite lookup_insert_ne.
    + destruct (decide (manifest = kh)) as [<-|Hne].
      * rewrite E. discriminate.
      * by rewrite lookup_insert_ne.
  - destruct (String.eqb a "mod" && String.eqb sub "edit"); [|done].
    by destruct (fs !! manifest) as [[x| |]|].
Qed.

Lemma down_then_up_witness :
  let w1 := after (downRun goStub 1) worldAB in
  let ran := since w1 (after (upRun goStub 1) w1) in
  let edit := mkCmd None ["mod"; "edit"; "-replace=a=/x/a"; "-replace=b=/y/b"] in
  files w1 !! "/m/.gomr" = files worldAB !! "/m/.gomr"
  /\ readGomrFile "/m/.gomr" w1
     = (Ok [mkReplace "a" "/x/a" false; mkReplace "b" "/y/b" true], w1)
  /\ (forall c ok, (c, ok) ∈ ran -> isEdit c = true -> c = edit)
  /\ ((forall c ok, (c, ok) ∈ ran -> isInit c = true -> ok = true) ->
      exists cs ok,
        ran = cs ++ [(edit, ok)] /\ Forall (fun e => isInit (fst e) = true) cs).
Proof.
  destruct (down_then_up_same_replaces goStub 0 0 worldAB) as [Hstore Hup].
  - intros c fs. apply (goStub_keeps "/m" c fs "/m/.gomr" "/m/.gomr").
    vm_compute. discriminate.
  - split; [exact Hstore|].
    destruct (Hup ("module m" ++ nl)%string
                [mkReplace "a" "/x/a" false; mkReplace "b" "/y/b" true]
                eq_refl eq_refl eq_refl) as [Hload Hplan].
    split; [exact Hload|]. apply Hplan.
    + intros c fs. apply (goStub_keeps "/m" c fs "/m/.gomr" "/m/go.mod").
      vm_compute. discriminate.
    + intros r Hin Hr. apply elem_of_cons in Hin as [-> | Hin]; [discriminate Hr|].
      apply list_elem_of_singleton in Hin. subst r. vm_compute. discriminate.
Defined.

(** C7, as stated: the store of the host module [/m] holds [x !/m]; [down]
    leaves the store as it is but removes [/m/go.mod], the [go.mod] of the host
    module itself, and [up], run after it, never finds the host module: it
    issues no [edit] at all, whatever the fuel. *)
Lemma down_up_host_manifest_lost :
  let w1 := after (downRun goStub 1) worldSelf in
  fst (readGomrFile "/m/.gomr" worldSelf) = Ok [mkReplace "x" "/m" true]
  /\ files w1 !! "/m/.gomr" = files worldSelf !! "/m/.gomr"
  /\ files w1 !! "/m/go.mod" = None
  /\ forall fuel,
       fst (upRun goStub fuel w1) = Spin
       /\ since w1 (after (upRun goStub fuel) w1) = [].
Proof.
  cbv zeta.
  split; [vm_compute; reflexivity|].
  split; [vm_compute; reflexivity|].
  split; [vm_compute; reflexivity|].
  intros fuel. set (w1 := after (downRun goStub 1) worldSelf).
  assert (Hspin : upRun goStub fuel w1 = (Spin, w1)).
  { unfold upRun. unfold bind at 1. rewrite findModuleRoot_run.
    rewrite (findModuleRootLoop_absent (cwd w1) w1 (ErrNotExist "/m/go.mod"));
      [reflexivity | reflexivity | vm_compute; reflexivity | reflexivity]. }
  unfold after. rewrite Hspin. split; [reflexivity | apply since_refl].
Qed.

(** * Further properties of the commands *)

(** ** [findModuleRoot] *)

(** X1: whatever the fuel, a directory that [findModuleRoot] returns is the
    working directory itself, and its [go.mod] is a regular file; no other
    directory is ever returned. *)
Theorem findModuleRoot_only_cwd (fuel : nat) (w : World) (root : string) :
  fst (findModuleRoot fuel w) = Ok root ->
  root = cwd w
  /\ exists c, Stat (Join [cwd w; "go.mod"]) w = inr (File c).
Proof.
  rewrite findModuleRoot_run. cbn [fst].
  generalize (cwd w) as d. intros d.
  induction fuel as [|fuel IH]; simpl; [discriminate|].
  destruct (String.eqb d "" || String.eqb d "/"); [discriminate|].
  destruct (Stat _ w) as [e|[c| |]] eqn:E.
  - destruct (IsNotExist e); [exact IH | discriminate].
  - simpl. intros H. inversion H; subst. split; [reflexivity | by exists c].
  - simpl. exact IH.
  - simpl. intros H. unfold Stat, lookupNode in E.
    destruct (String.eqb _ ""); [discriminate|].
    destruct (files w !! _) as [[| |]|]; try discriminate.
    by destruct (walk _ _ _).
Qed.

Lemma findModuleRoot_only_cwd_witness :
  "/m" = cwd worldAB
  /\ exists c, Stat (Join [cwd worldAB; "go.mod"]) worldAB = inr (File c).
Proof.
  apply (findModuleRoot_only_cwd 3 worldAB "/m"). reflexivity.
Defined.

(** X2: the first iteration decides: with one unit of fuel or with many,
    [findModuleRoot] ends the same way, so a search that has not ended at once
    never ends. *)
Theorem findModuleRoot_fuel_irrelevant (n m : nat) (w : World) :
  findModuleRoot (S n) w = findModuleRoot (S m) w.
Proof.
  rewrite !findModuleRoot_run. f_equal.
  generalize (cwd w) as d. intros d.
  assert (Hstep : forall k,
             findModuleRootLoop (S k) d w
             = if String.eqb d "" || String.eqb d "/" then Err ErrNoModule
               else match Stat (Join [d; "go.mod"]) w with
                    | inl err => if IsNotExist err then findModuleRootLoop k d w
                                 else Err err
                    | inr f => if negb (IsDir f) then Ok d
                               else findModuleRootLoop k d w
                    end) by reflexivity.
  assert (H1 : forall k, findModuleRootLoop (S k) d w = findModuleRootLoop 1 d w).
  { induction k as [|k IH]; [reflexivity|].
    rewrite (Hstep (S k)), IH, (Hstep 0).
    destruct (String.eqb d "" || String.eqb d "/"); [reflexivity|].
    destruct (Stat _ w) as [e|f].
    - by destruct (IsNotExist e).
    - by destruct (negb (IsDir f)). }
  by rewrite (H1 n), (H1 m).
Qed.

(** ** Commands without a host module or without a store *)

(** X3: when the host module is not found, or is found but its store cannot
    be read, [up], [down] and [remove] return that very error and leave the
    world as it is: no command is run, nothing is printed, no file changes. *)
Theorem commands_need_host_and_store
    (goTool : string -> Cmd -> gmap string node -> exit * gmap string node)
    (unicodeLower : string -> string)
    (fuel : nat) (name : string) (w : World) (e : error) :
  fst (findModuleRoot fuel w) = Err e
  \/ (exists root,
        fst (findModuleRoot fuel w) = Ok root
        /\ fst (readGomrFile (Join [root; gomrFilename]) w) = Err e) ->
  upRun goTool fuel w = (Err e, w)
  /\ downRun goTool fuel w = (Err e, w)
  /\ removeRun goTool unicodeLower fuel [name] w = (Err e, w).
Proof.
  rewrite findModuleRoot_run. cbn [fst]. intros [Hroot | (root & Hroot & Hread)].
  - unfold upRun, downRun, removeRun.
    repeat split; unfold bind at 1; by rewrite findModuleRoot_run, Hroot.
  - pose proof (readGomrFile_world (Join [root; gomrFilename]) w) as Hw.
    destruct (readGomrFile (Join [root; gomrFilename]) w) as [res w1] eqn:E.
    cbn [fst snd] in Hread, Hw. subst res w1.
    unfold upRun, downRun, removeRun.
    repeat split; unfold bind at 1; rewrite findModuleRoot_run, Hroot;
      unfold bind at 1; by rewrite E.
Qed.

Lemma commands_need_host_and_store_witness :
  upRun goStub 1 worldNoStore = (Err (ErrNotExist "/m/.gomr"), worldNoStore)
  /\ downRun goStub 1 worldNoStore = (Err (ErrNotExist "/m/.gomr"), worldNoStore)
  /\ removeRun goStub id 1 ["a"] worldNoStore
     = (Err (ErrNotExist "/m/.gomr"), worldNoStore).
Proof.
  apply (commands_need_host_and_store goStub id 1 "a" worldNoStore
           (ErrNotExist "/m/.gomr")).
  right. exists "/m". split; reflexivity.
Defined.

(** ** The loop of [remove] *)

Section RemoveLoop.

Variable unicodeLower : string -> string.
Variable name : string.

(** Copying the last record over the record at [i] and dropping the last
    one leaves the records other than the one at [i]. *)
Lemma swap_delete_Permutation (l : list replace) (i : nat) (r x : replace) :
  l !! i = Some r -> l !! (length l - 1) = Some x ->
  take (length l - 1) (<[i := x]> l) ≡ₚ delete i l.
Proof.
  intros Hi Hlast.
  assert (Hl : last l = Some x).
  { rewrite last_lookup, <- Nat.sub_1_r. exact Hlast. }
  apply last_Some in Hl as [l0 ->].
  rewrite length_app. simpl. replace (length l0 + 1 - 1) with (length l0) by lia.
  apply lookup_lt_Some in Hi as Hlt. rewrite length_app in Hlt. simpl in Hlt.
  destruct (decide (i = length l0)) as [->|Hne].
  - rewrite insert_app_r_alt by lia. rewrite Nat.sub_diag. simpl.
    rewrite take_app_length.
    rewrite delete_take_drop, take_app_length.
    rewrite drop_ge by (rewrite length_app; simpl; lia). by rewrite app_nil_r.
  - assert (Hi0 : i < length l0) by lia.
    rewrite insert_app_l by done.
    rewrite take_app_length' by (by rewrite length_insert).
    rewrite lookup_app_l in Hi by done.
    rewrite (delete_take_drop (l0 ++ [x])).
    rewrite take_app_le by lia. rewrite drop_app_le by lia.
    rewrite insert_take_drop by done.
    apply Permutation_app_head, Permutation_cons_append.
Qed.

Lemma removeLoop_found_stays (i : nat) (l : list replace) (found : bool)
    (deleted : replace) :
  found = true ->
  snd (fst (removeLoop unicodeLower name i l found deleted)) = true.
Proof.
  funelim (removeLoop unicodeLower name i l found deleted); intros Hf;
    try (simpl; exact Hf); auto.
Qed.

(** X4: the loop reports a match exactly when some record of the store has
    the given name, letter case apart. *)
Theorem removeLoop_found_iff (rs : list replace) :
  snd (fst (removeLoop unicodeLower name 0 rs false zeroReplace))
  = existsb (sameName unicodeLower name) rs.
Proof.
  enough (H : forall i l found deleted,
             snd (fst (removeLoop unicodeLower name i l found deleted))
             = found || existsb (sameName unicodeLower name) (drop i l))
    by (rewrite H; reflexivity).
  intros i l found deleted.
  funelim (removeLoop unicodeLower name i l found deleted);
    try (exfalso;
         match goal with
         | Hl : _ !! _ = None |- _ => apply lookup_ge_None in Hl; lia
         end).
  - simpl. rewrite drop_ge by lia. simpl. by rewrite orb_false_r.
  - match goal with Hl : replaces !! i = Some _ |- _ =>
      rewrite (drop_S _ _ _ Hl) end.
    simpl. unfold sameName at 1.
    match goal with Hb : String.eqb _ _ = _ |- _ => rewrite Hb end.
    simpl. rewrite orb_true_r. by apply removeLoop_found_stays.
  - match goal with Hl : replaces !! i = Some _ |- _ =>
      rewrite (drop_S _ _ _ Hl) end.
    simpl. unfold sameName at 1.
    match goal with Hb : String.eqb _ _ = _ |- _ => rewrite Hb end.
    simpl. auto.
Qed.

(** X5: the loop invents no record and loses none of the records with
    another name: what it returns is part of the store it was given, and the
    records of another name are the same before and after, up to their order. *)
Theorem removeLoop_keeps_others (rs : list replace) :
  let rs' := fst (fst (removeLoop unicodeLower name 0 rs false zeroReplace)) in
  rs' ⊆+ rs
  /\ filter (fun r => sameName unicodeLower name r = false) rs'
     ≡ₚ filter (fun r => sameName unicodeLower name r = false) rs.
Proof.
  cbv zeta.
  enough (H : forall i found deleted,
             fst (fst (removeLoop unicodeLower name i rs found deleted)) ⊆+ rs
             /\ filter (fun r => sameName unicodeLower name r = false)
                  (fst (fst (removeLoop unicodeLower name i rs found deleted)))
                ≡ₚ filter (fun r => sameName unicodeLower name r = false) rs)
    by apply H.
  intros i found deleted.
  funelim (removeLoop unicodeLower name i rs found deleted);
    try (split; reflexivity).
  - match goal with
    | IH : _ /\ _, Hl : replaces !! i = Some ?r, Hx : replaces !! (_ - 1) = Some _,
      Hb : String.eqb _ _ = true |- _ =>
        destruct IH as [IH1 IH2];
        pose proof (swap_delete_Permutation _ _ _ _ Hl Hx) as Hp;
        pose proof (delete_Permutation _ _ _ Hl) as Hd;
        assert (Hr : sameName unicodeLower name r = true) by exact Hb
    end.
    split.
    + rewrite IH1, Hp. apply sublist_submseteq, sublist_delete.
    + rewrite IH2, Hp. rewrite Hd at 2.
      rewrite filter_cons_False; [reflexivity|]. by rewrite Hr.
  - assumption.
Qed.

(** X6: when one record only has the given name, the loop finds it,
    returns it as the deleted record, and returns the other records of the
    store, all of them, in some order. *)
Theorem removeLoop_unique (rs : list replace) (k : nat) (r : replace) :
  rs !! k = Some r ->
  sameName unicodeLower name r = true ->
  (forall j r', rs !! j = Some r' -> j <> k -> sameName unicodeLower name r' = false) ->
  exists rs',
    removeLoop unicodeLower name 0 rs false zeroReplace = (rs', true, r)
    /\ rs' ≡ₚ delete k rs.
Proof.
  intros Hk Hr Huniq.
  enough (H : forall i found deleted,
             i <= k ->
             exists rs',
               removeLoop unicodeLower name i rs found deleted = (rs', true, r)
               /\ rs' ≡ₚ delete k rs)
    by (apply H; lia).
  intros i found deleted. revert k r Hk Hr Huniq.
  funelim (removeLoop unicodeLower name i rs found deleted);
    intros k r0 Hk Hr Huniq Hle;
    try (exfalso;
         match goal with
         | Hl : _ !! _ = None |- _ => apply lookup_ge_None in Hl; lia
         end).
  - exfalso. apply lookup_lt_Some in Hk. lia.
  - match goal with
    | Hl : replaces !! i = Some ?r, Hx : replaces !! (_ - 1) = Some _,
      Hb : String.eqb _ _ = true |- _ =>
        pose proof (swap_delete_Permutation _ _ _ _ Hl Hx) as Hp;
        assert (Hm : sameName unicodeLower name r = true) by exact Hb;
        assert (Hik : i = k)
          by (destruct (decide (i = k)) as [|Hne]; [done|];
              rewrite (Huniq _ _ Hl Hne) in Hm; discriminate);
        subst i; rewrite Hl in Hk; inversion Hk; subst r0
    end.
    eexists. split; [|exact Hp].
    apply removeLoop_no_match. rewrite Hp. apply Forall_forall. intros x Hx.
    apply list_elem_of_lookup in Hx as [j Hj].
    destruct (decide (j < k)) as [Hlt|Hge].
    + rewrite list_lookup_delete_lt in Hj by done. apply (Huniq j x Hj). lia.
    + rewrite list_lookup_delete_ge in Hj by lia. apply (Huniq (S j) x Hj). lia.
  - match goal with
    | IH : forall k r, _, Hl : replaces !! i = Some ?r,
      Hb : String.eqb _ _ = false |- _ =>
        assert (Hm : sameName unicodeLower name r = false) by exact Hb;
        assert (Hik : i <> k)
          by (intros ->; rewrite Hl in Hk; inversion Hk; subst; congruence);
        apply (IH k r0 Hk Hr Huniq); lia
    end.
Qed.

End RemoveLoop.

Lemma removeLoop_unique_witness :
  exists rs',
    removeLoop id "foo" 0
      [mkReplace "a" "/pa" false; mkReplace "Foo" "/p" true; mkReplace "b" "/pb" false]
      false zeroReplace
    = (rs', true, mkReplace "Foo" "/p" true)
    /\ rs' ≡ₚ delete 1 [mkReplace "a" "/pa" false; mkReplace "Foo" "/p" true;
                        mkReplace "b" "/pb" false].
Proof.
  apply (removeLoop_unique id "foo"
           [mkReplace "a" "/pa" false; mkReplace "Foo" "/p" true;
            mkReplace "b" "/pb" false] 1 (mkReplace "Foo" "/p" true)).
  - reflexivity.
  - reflexivity.
  - intros j r' Hj Hne. destruct j as [|[|[|j]]]; simpl in Hj;
      try (inversion Hj; subst; reflexivity); congruence.
Defined.

(** X7: [remove] of a name that no record of the store has, letter case
    apart, says so on the standard output and returns without an error; it
    runs no command and changes no file, the store included. *)
Theorem remove_unknown_name_is_noop
    (goTool : string -> Cmd -> gmap string node -> exit * gmap string node)
    (unicodeLower : string -> string)
    (fuel : nat) (name : string) (w : World) (root : string) (rs : list replace) :
  findModuleRoot fuel w = (Ok root, w) ->
  readGomrFile (Join [root; gomrFilename]) w = (Ok rs, w) ->
  existsb (sameName unicodeLower name) rs = false ->
  removeRun goTool unicodeLower fuel [name] w
  = (Ok tt, toStdout ("could not find stored replace for module: " ++ name ++ nl) w).
Proof.
  intros Hroot Hread Hno. unfold removeRun.
  unfold bind at 1. rewrite Hroot. unfold bind at 1. rewrite Hread.
  rewrite removeLoop_no_match; [reflexivity|].
  apply Forall_forall. intros r Hin.
  destruct (sameName unicodeLower name r) eqn:E; [|exact E].
  assert (Hex : existsb (sameName unicodeLower name) rs = true).
  { apply existsb_exists. exists r. split; [by apply list_elem_of_In | exact E]. }
  congruence.
Qed.

Lemma remove_unknown_name_witness :
  removeRun goStub id 1 ["c"] worldAB
  = (Ok tt, toStdout ("could not find stored replace for module: " ++ "c" ++ nl) worldAB).
Proof.
  apply (remove_unknown_name_is_noop goStub id 1 "c" worldAB "/m"
           [mkReplace "a" "/x/a" false; mkReplace "b" "/y/b" true]);
    reflexivity.
Defined.

(** ** [down] *)

Lemma Join_manifest_nonempty (x : string) : Join [x; "go.mod"] <> "".
Proof.
  intros E. pose proof (lastElem_Join x "go.mod" realElem_manifest eq_refl) as H.
  rewrite E in H. discriminate.
Qed.

(** [os.Remove] and the tolerant removal only ever delete the node of the
    path they are given. *)
Lemma removeTolerant_effect (p msg : string) (w : World) :
  let r := removeTolerant p msg w in
  cwd (snd r) = cwd w
  /\ execs (snd r) = execs w
  /\ (forall k, k <> key w p -> files (snd r) !! k = files w !! k)
  /\ (files (snd r) !! key w p = None \/ files (snd r) = files w)
  /\ match fst r with
     | Ok _ => p <> "" -> files (snd r) !! key w p = None
     | Err e => exists e0, e = Wrap e0 msg
     | _ => False
     end.
Proof.
  cbv zeta. unfold removeTolerant, Remove, lookupNode.
  destruct (String.eqb p "") eqn:Ep.
  - simpl. repeat split; auto. intros Hp. apply String.eqb_eq in Ep. congruence.
  - destruct (files w !! key w p) as [[c| |]|] eqn:E; simpl.
    + repeat split; auto.
      * intros k Hk. by rewrite lookup_delete_ne.
      * left. apply lookup_delete_eq.
      * intros _. apply lookup_delete_eq.
    + destruct (emptyDir _ _); simpl.
      * repeat split; auto.
        -- intros k Hk. by rewrite lookup_delete_ne.
        -- left. apply lookup_delete_eq.
        -- intros _. apply lookup_delete_eq.
      * repeat split; auto. by eexists.
    + repeat split; auto. by eexists.
    + destruct (walk _ _ _) as [e|]; simpl.
      * destruct (negb (IsNotExist e)); simpl; repeat split; auto. by eexists.
      * repeat split; auto.
Qed.

Lemma downLoop_effect (rs : list replace) :
  forall (args : list string) (w : World) (res : outcome (list string)) (w' : World),
    downLoop rs args w = (res, w') ->
    cwd w' = cwd w
    /\ execs w' = execs w
    /\ (forall k, files w' !! k = None \/ files w' !! k = files w !! k)
    /\ (forall k,
          (forall r, r ∈ rs -> AddGoMod r = true ->
                     key w (Join [AbsPath r; "go.mod"]) <> k) ->
          files w' !! k = files w !! k)
    /\ match res with
       | Ok args' =>
           args' = args ++ map dropArg rs
           /\ forall r, r ∈ rs -> AddGoMod r = true ->
                        files w' !! key w (Join [AbsPath r; "go.mod"]) = None
       | Err e => exists e0 msg, e = Wrap e0 msg
       | _ => False
       end.
Proof.
  induction rs as [|r rs IH]; intros args w res w' Hrun.
  - simpl in Hrun. unfold ret in Hrun. inversion Hrun; subst.
    repeat split; auto.
    + by rewrite app_nil_r.
    + intros r Hin. by apply elem_of_nil in Hin.
  - rewrite downLoop_cons in Hrun. destruct (AddGoMod r) eqn:Er.
    + pose proof (removeTolerant_effect (Join [AbsPath r; "go.mod"])
                    "something went wrong when trying to delete the added go.mod" w)
        as (Hc & He & Hother & Hself & Hres). cbv zeta in *.
      destruct (removeTolerant _ _ w) as [[[]| e | p |] w1]; cbn [fst snd] in *;
        try done.
      * apply IH in Hrun as (Hc' & He' & Hdel & Hkeep & Hres').
        split; [congruence|]. split; [congruence|].
        assert (Hdel1 : forall k, files w1 !! k = None \/ files w1 !! k = files w !! k).
        { intros k. destruct (decide (k = key w (Join [AbsPath r; "go.mod"]))) as [->|Hne].
          - destruct Hself as [Hn | Hn]; [by left | right; by rewrite Hn].
          - right. by apply Hother. }
        split.
        { intros k. destruct (Hdel k) as [Hn | Hn]; [by left|].
          rewrite Hn. apply Hdel1. }
        split.
        { intros k Hk. rewrite Hkeep.
          - apply Hother. intros E. apply (Hk r); [by left | exact Er | by rewrite E].
          - intros r' Hin Hr'. rewrite (key_cwd w w1 _ Hc). apply Hk; [by right | exact Hr']. }
        destruct res as [args'| e | p |]; try done.
        destruct Hres' as [-> Hgone]. split; [by rewrite <- app_assoc|].
        intros r' Hin Hr'. apply elem_of_cons in Hin as [-> | Hin].
        -- destruct (Hdel (key w (Join [AbsPath r; "go.mod"]))) as [Hn | Hn]; [exact Hn|].
           rewrite Hn. apply Hres, Join_manifest_nonempty.
        -- rewrite <- (key_cwd w w1 _ Hc). by apply Hgone.
      * inversion Hrun; subst. repeat split; auto.
        -- intros k. destruct (decide (k = key w (Join [AbsPath r; "go.mod"]))) as [->|Hne].
           ++ destruct Hself as [Hn | Hn]; [by left | right; by rewrite Hn].
           ++ right. by apply Hother.
        -- intros k Hk. apply Hother. intros E.
           apply (Hk r); [by left | exact Er | by rewrite E].
        -- destruct Hres as [e0 ->]. by eexists _, _.
    + apply IH in Hrun as (Hc' & He' & Hdel & Hkeep & Hres').
      repeat split; auto.
      * intros k Hk. apply Hkeep. intros r' Hin Hr'. apply Hk; [by right | exact Hr'].
      * destruct res as [args'| e | p |]; try done.
        destruct Hres' as [-> Hgone]. split; [by rewrite <- app_assoc|].
        intros r' Hin Hr'. apply elem_of_cons in Hin as [-> | Hin]; [congruence|].
        by apply Hgone.
Qed.

(** X8: the loop of [down], when it ends without an error, has removed the
    [go.mod] of every record marked as synthesized, has left every other file
    as it was, and has made one [-dropreplace] argument per record, in the
    order of the store; it runs no command. *)
Theorem downLoop_removes_placeholders (rs : list replace) (w w' : World)
    (args : list string) :
  downLoop rs [] w = (Ok args, w') ->
  args = map dropArg rs
  /\ execs w' = execs w
  /\ (forall r, r ∈ rs -> AddGoMod r = true ->
                files w' !! key w (Join [AbsPath r; "go.mod"]) = None)
  /\ (forall k,
        (forall r, r ∈ rs -> AddGoMod r = true ->
                   key w (Join [AbsPath r; "go.mod"]) <> k) ->
        files w' !! k = files w !! k).
Proof.
  intros Hrun. apply downLoop_effect in Hrun as (_ & He & _ & Hkeep & Hargs & Hgone).
  repeat split; auto.
Qed.

Lemma downLoop_removes_placeholders_witness :
  let rs := [mkReplace "a" "/x/a" false; mkReplace "b" "/y/b" true] in
  let w := after (upRun goStub 1) worldAB in
  let w' := snd (downLoop rs [] w) in
  ["-dropreplace=a"; "-dropreplace=b"] = map dropArg rs
  /\ execs w' = execs w
  /\ (forall r, r ∈ rs -> AddGoMod r = true ->
                files w' !! key w (Join [AbsPath r; "go.mod"]) = None)
  /\ (forall k,
        (forall r, r ∈ rs -> AddGoMod r = true ->
                   key w (Join [AbsPath r; "go.mod"]) <> k) ->
        files w' !! k = files w !! k).
Proof.
  apply (downLoop_removes_placeholders
           [mkReplace "a" "/x/a" false; mkReplace "b" "/y/b" true]
           (after (upRun goStub 1) worldAB)).
  vm_compute. reflexivity.
Defined.

(** X9: once the host module is found and the store loaded, [down] runs at
    most one command, and that command is [go mod edit], with [Dir] unset, with
    one [-dropreplace] argument per record of the store, in the order of the
    store; when [down] returns without an error it has run it, with success,
    and has said so on the standard output. *)
Theorem down_runs_one_edit
    (goTool : string -> Cmd -> gmap string node -> exit * gmap string node)
    (fuel : nat) (w : World) (root : string) (rs : list replace) :
  findModuleRoot fuel w = (Ok root, w) ->
  readGomrFile (Join [root; gomrFilename]) w = (Ok rs, w) ->
  let edit := mkCmd None ("mod" :: "edit" :: map dropArg rs) in
  let w' := after (downRun goTool fuel) w in
  (since w w' = [] \/ exists ok, since w w' = [(edit, ok)])
  /\ (fst (downRun goTool fuel w) = Ok tt ->
      since w w' = [(edit, true)]
      /\ stdout w' = stdout w ++ [("replace lines removed" ++ nl)%string]).
Proof.
  intros Hroot Hread edit w'. subst w'. unfold after.
  rewrite findModuleRoot_run in Hroot. inversion Hroot as [Hr].
  rewrite (downRun_run goTool fuel w root rs Hr Hread).
  destruct (downLoop rs [] w) as [res w1] eqn:Hloop.
  pose proof (downLoop_effect rs [] w res w1 Hloop) as (Hc & He & _ & _ & Hres).
  assert (Hso : stdout w1 = stdout w).
  { clear -Hloop. revert w res w1 Hloop. generalize (@nil string).
    induction rs as [|r rs IH]; intros args w res w1 Hloop.
    - simpl in Hloop. unfold ret in Hloop. by inversion Hloop.
    - rewrite downLoop_cons in Hloop. destruct (AddGoMod r); [|by eapply IH].
      assert (Hs : stdout (snd (removeTolerant (Join [AbsPath r; "go.mod"])
                  "something went wrong when trying to delete the added go.mod" w))
                   = stdout w).
      { unfold removeTolerant, Remove.
        destruct (lookupNode _ w) as [e|[c| |]]; simpl; try reflexivity.
        - by destruct (negb (IsNotExist e)).
        - by destruct (emptyDir _ _). }
      destruct (removeTolerant _ _ w) as [[[]| e | p |] w2]; cbn [snd] in Hs;
        try (inversion Hloop; subst; exact Hs).
      rewrite <- Hs. by eapply IH. }
  destruct res as [args| e | p |]; try done.
  - destruct Hres as [-> _]. simpl app. unfold bind. rewrite gomod_run.
    change (goCmd "" ("edit" :: map dropArg rs)) with edit.
    destruct (goTool (cwd w1) edit (files w1)) as [[|b] fs]; simpl.
    + split.
      * right. exists true. apply since_app. simpl. by rewrite He.
      * intros _. split; [apply since_app; simpl; by rewrite He | by rewrite Hso].
    + split; [|discriminate].
      right. exists false. apply since_app. simpl. by rewrite He.
  - simpl. split; [|discriminate]. left. by apply since_app; rewrite He, app_nil_r.
Qed.

Lemma down_runs_one_edit_witness :
  let edit := mkCmd None ["mod"; "edit"; "-dropreplace=a"; "-dropreplace=b"] in
  let w' := after (downRun goStub 1) worldAB in
  (since worldAB w' = [] \/ exists ok, since worldAB w' = [(edit, ok)])
  /\ (fst (downRun goStub 1 worldAB) = Ok tt ->
      since worldAB w' = [(edit, true)]
      /\ stdout w' = stdout worldAB ++ [("replace lines removed" ++ nl)%string]).
Proof.
  apply (down_runs_one_edit goStub 1 worldAB "/m"
           [mkReplace "a" "/x/a" false; mkReplace "b" "/y/b" true]); reflexivity.
Defined.

(** ** [up] when everything succeeds *)

Lemma upLoop_ok
    (goTool : string -> Cmd -> gmap string node -> exit * gmap string node)
    (rs : list replace) :
  forall (args : list string) (w : World) (args' : list string) (w' : World),
    upLoop goTool rs args w = (Ok args', w') ->
    args' = args ++ map replaceArg rs
    /\ execs w'
       = execs w ++ map (fun r => (initCmd r, true)) (List.filter AddGoMod rs)
    /\ stdout w' = stdout w.
Proof.
  induction rs as [|r rs IH]; intros args w args' w' Hrun.
  - simpl in Hrun. unfold ret in Hrun. inversion Hrun; subst.
    by rewrite !app_nil_r.
  - rewrite upLoop_cons in Hrun. simpl. destruct (AddGoMod r).
    + destruct (goTool (cwd w) _ (files w)) as [[|b] fs]; [|discriminate].
      apply IH in Hrun as (-> & He & Hs). simpl in He, Hs.
      repeat split; [by rewrite <- app_assoc | | exact Hs].
      rewrite He. by rewrite <- app_assoc.
    + apply IH in Hrun as (-> & He & Hs).
      repeat split; [by rewrite <- app_assoc | exact He | exact Hs].
Qed.

(** X10: when [up] returns without an error, it has run, in this order,
    one [go mod init <name>] in the directory of each record marked as
    synthesized, in the order of the store, then one [go mod edit] with one
    [-replace=name=path] argument per record, all with success, and has said so
    on the standard output. *)
Theorem up_success_plan
    (goTool : string -> Cmd -> gmap string node -> exit * gmap string node)
    (fuel : nat) (w : World) (root : string) (rs : list replace) :
  findModuleRoot fuel w = (Ok root, w) ->
  readGomrFile (Join [root; gomrFilename]) w = (Ok rs, w) ->
  fst (upRun goTool fuel w) = Ok tt ->
  let w' := after (upRun goTool fuel) w in
  since w w'
  = map (fun r => (initCmd r, true)) (List.filter AddGoMod rs)
    ++ [(mkCmd None ("mod" :: "edit" :: map replaceArg rs), true)]
  /\ stdout w' = stdout w ++ [("replace lines installed" ++ nl)%string].
Proof.
  intros Hroot Hread. cbv zeta. unfold after.
  rewrite findModuleRoot_run in Hroot. inversion Hroot as [Hr].
  rewrite (upRun_run goTool fuel w root rs Hr Hread).
  destruct (upLoop goTool rs [] w) as [[args| e | p |] w1] eqn:Hloop;
    try discriminate.
  apply upLoop_ok in Hloop as (-> & He & Hs). simpl app.
  unfold bind. rewrite gomod_run.
  destruct (goTool (cwd w1) _ (files w1)) as [[|b] fs]; [|discriminate].
  intros _. simpl. split.
  - apply since_app. simpl. rewrite He. by rewrite <- app_assoc.
  - by rewrite Hs.
Qed.

Lemma up_success_plan_witness :
  let w' := after (upRun goStub 1) worldAB in
  since worldAB w'
  = map (fun r => (initCmd r, true))
      (List.filter AddGoMod [mkReplace "a" "/x/a" false; mkReplace "b" "/y/b" true])
    ++ [(mkCmd None ("mod" :: "edit"
                     :: map replaceArg [mkReplace "a" "/x/a" false;
                                        mkReplace "b" "/y/b" true]), true)]
  /\ stdout w' = stdout worldAB ++ [("replace lines installed" ++ nl)%string].
Proof.
  apply (up_success_plan goStub 1 worldAB "/m"
           [mkReplace "a" "/x/a" false; mkReplace "b" "/y/b" true]); reflexivity.
Defined.

(** ** The store file *)

Lemma walk_error (fs : gmap string node) (p : string) (dirs : list string)
    (e : error) :
  walk fs p dirs = Some e ->
  e = ErrNotExist p \/ e = ErrNotDir p \/ e = ErrPermission p.
Proof.
  induction dirs as [|d dirs IH]; simpl; [discriminate|].
  destruct (fs !! d) as [[c| |]|]; try exact IH; intros H; inversion H; auto.
Qed.

(** X11: [writeGomrFile] on a path that holds a regular file, or that is
    free below directories that are all there, succeeds and leaves there the
    lines of the records given and nothing of what the file held before (an
    empty file for no record); it touches no other file and runs no command.
    On a directory it fails with the wrapped error of the opening and changes
    nothing; and so it does on a free path when a directory above it is
    missing, is a regular file or is forbidden: no file is created. *)
Theorem save_replaces_content (path : string) (rs : list replace) (w : World) :
  path <> "" ->
  (isFile (files w !! key w path) = true
   \/ (files w !! key w path = None /\ dirsAbove (files w) (key w path) = true) ->
   let w' := after (writeGomrFile path rs) w in
   fst (writeGomrFile path rs w) = Ok tt
   /\ files w' !! key w path = Some (File (joinAll (map writeLine rs)))
   /\ (forall k, k <> key w path -> files w' !! k = files w !! k)
   /\ execs w' = execs w /\ stdout w' = stdout w)
  /\ (files w !! key w path = Some Directory ->
      writeGomrFile path rs w
      = (Err (Wrap (ErrIsDir path) "failed to open .gomr file for writing"), w))
  /\ (files w !! key w path = None -> dirsAbove (files w) (key w path) = false ->
      exists e,
        (e = ErrNotExist path \/ e = ErrNotDir path \/ e = ErrPermission path)
        /\ writeGomrFile path rs w
           = (Err (Wrap e "failed to open .gomr file for writing"), w)).
Proof.
  intros Hp. split; [|split].
  - intros Hf. cbv zeta. unfold after.
    rewrite (writeGomrFile_content path rs w Hp Hf). cbn [fst snd].
    unfold setFiles; cbn [files execs stdout].
    repeat split; [apply lookup_insert_eq|].
    intros k Hk. by rewrite lookup_insert_ne.
  - intros Hd. unfold writeGomrFile, bind, wrapping, openForWrite.
    apply String.eqb_neq in Hp. by rewrite Hp, Hd.
  - intros Hn Hd. unfold writeGomrFile, bind, wrapping, openForWrite.
    apply String.eqb_neq in Hp. rewrite Hp, Hn.
    destruct (walk (files w) path (ancestors (key w path))) as [e|] eqn:E.
    + exists e. split; [by apply walk_error in E | reflexivity].
    + apply walk_dirsAbove in E. congruence.
Qed.

Lemma save_replaces_content_witness :
  let w' := after (writeGomrFile "/m/.gomr" []) worldAB in
  (fst (writeGomrFile "/m/.gomr" [] worldAB) = Ok tt
   /\ files w' !! "/m/.gomr" = Some (File "")
   /\ (forall k, k <> "/m/.gomr" -> files w' !! k = files worldAB !! k)
   /\ execs w' = execs worldAB /\ stdout w' = stdout worldAB)
  /\ exists e,
       (e = ErrNotExist "/nope/.gomr" \/ e = ErrNotDir "/nope/.gomr"
        \/ e = ErrPermission "/nope/.gomr")
       /\ writeGomrFile "/nope/.gomr" [] worldAB
          = (Err (Wrap e "failed to open .gomr file for writing"), worldAB).
Proof.
  split.
  - apply (proj1 (save_replaces_content "/m/.gomr" [] worldAB ltac:(discriminate))).
    left. reflexivity.
  - apply (proj2 (proj2 (save_replaces_content "/nope/.gomr" [] worldAB
                           ltac:(discriminate)))); reflexivity.
Defined.

(** ** What [add] writes, read back *)

Lemma space_width_before_space (c : ascii) (r t : string) :
  space_width (String c r) = 0 ->
  space_width (String c (r ++ String (ascii_of_nat 32) t)) = 0.
Proof.
  destruct r as [|d [|e r]]; rewrite ?append_cons, ?append_nil_l; unfold space_width;
    destruct (asciiSpace c); try discriminate.
  - intros _. change (byte (ascii_of_nat 32)) with 32. simpl.
    rewrite andb_false_r. destruct t; [reflexivity|].
    by rewrite !andb_false_r.
  - destruct ((byte c =? 194)%nat && ((byte d =? 133)%nat || (byte d =? 160)%nat));
      [discriminate|].
    intros _. change (byte (ascii_of_nat 32)) with 32. simpl.
    by rewrite !andb_false_r.
  - by intros H.
Qed.

Lemma fields_from_space (t cur : string) :
  fields_from (String (ascii_of_nat 32) t) 0 cur = flush cur ++ fields_from t 0 "".
Proof. reflexivity. Qed.

Lemma fields_from_noSpace (n : string) :
  forall (cur t : string),
    noSpace n = true ->
    fields_from (n ++ String (ascii_of_nat 32) t) 0 cur
    = fields_from (String (ascii_of_nat 32) t) 0 (cur ++ n).
Proof.
  induction n as [|c r IH]; intros cur t Hn.
  - by rewrite append_nil_l, append_nil_r.
  - cbn [noSpace] in Hn. apply andb_prop in Hn as [Hc Hr].
    apply Nat.eqb_eq in Hc.
    pose proof (space_width_before_space c r t Hc) as Hw.
    rewrite append_cons.
    change (fields_from (String c (r ++ String (ascii_of_nat 32) t)) 0 cur)
      with (match space_width (String c (r ++ String (ascii_of_nat 32) t)) with
            | O => fields_from (r ++ String (ascii_of_nat 32) t) 0 (cur ++ String c "")
            | S k => flush cur ++ fields_from (r ++ String (ascii_of_nat 32) t) k ""
            end).
    rewrite Hw, (IH _ _ Hr). by rewrite append_assoc.
Qed.

Lemma fields_from_noSpace_end (p : string) :
  forall cur : string, noSpace p = true -> fields_from p 0 cur = flush (cur ++ p).
Proof.
  induction p as [|c r IH]; intros cur Hp.
  - by rewrite append_nil_r.
  - cbn [noSpace] in Hp. apply andb_prop in Hp as [Hc Hr].
    apply Nat.eqb_eq in Hc.
    change (fields_from (String c r) 0 cur)
      with (match space_width (String c r) with
            | O => fields_from r 0 (cur ++ String c "")
            | S k => flush cur ++ fields_from r k ""
            end).
    rewrite Hc, (IH _ Hr). by rewrite append_assoc.
Qed.

Lemma flush_nonempty (s : string) : s <> "" -> flush s = [s].
Proof. by destruct s. Qed.

(** Two texts without white space, with a space between them, are two
    fields. *)
Lemma Fields_two (n p : string) :
  noSpace n = true -> n <> "" -> noSpace p = true -> p <> "" ->
  Fields (n ++ " " ++ p) = [n; p].
Proof.
  intros Hn Hne Hp Hpe. unfold Fields.
  change (" " ++ p)%string with (String (ascii_of_nat 32) p).
  rewrite (fields_from_noSpace n "" p Hn), fields_from_space.
  rewrite (fields_from_noSpace_end p "" Hp).
  rewrite !append_nil_l. by rewrite !flush_nonempty.
Qed.

Lemma noSpace_bang (p : string) : noSpace p = true -> noSpace ("!" ++ p) = true.
Proof.
  intros Hp. change ("!" ++ p)%string with (String "!" p).
  cbn [noSpace]. rewrite Hp, andb_true_r.
  by destruct p as [|d [|e p]].
Qed.

Lemma HasPrefix_bang (p : string) : HasPrefix ("!" ++ p) "!" = true.
Proof. by destruct p. Qed.

Lemma noSpace_noNewline (s : string) : noSpace s = true -> noNewline s = true.
Proof.
  induction s as [|c r IH]; [reflexivity|].
  cbn [noSpace noNewline]. intros H. apply andb_prop in H as [Hc Hr].
  rewrite (IH Hr), andb_true_r. apply Nat.eqb_eq in Hc.
  destruct (byte c =? 10)%nat eqn:E; [|reflexivity].
  apply Nat.eqb_eq in E. unfold space_width in Hc.
  destruct (asciiSpace c) eqn:Ea; [discriminate|].
  unfold asciiSpace in Ea. cbv zeta in Ea. rewrite E in Ea. discriminate.
Qed.

Lemma rawLines_single (l : string) :
  l <> "" -> noNewline l = true -> rawLines l = [l].
Proof.
  induction l as [|c r IH]; [congruence|].
  intros _ Hl. cbn [noNewline] in Hl. apply andb_prop in Hl as [Hc Hr].
  apply negb_true_iff in Hc. simpl. rewrite Hc.
  destruct r as [|d r]; [reflexivity|].
  rewrite IH; [reflexivity | discriminate | exact Hr].
Qed.

(** X12: a store that holds what one [add] wrote loads as the record that
    was added, mark included, when the name and the path are non-empty texts
    without white space, the path of a record without the mark does not start
    with [!], and the text is shorter than [MaxScanTokenSize]. *)
Theorem added_record_loads (path : string) (w : World)
    (name absPath : string) (addGoMod : bool) :
  noSpace name = true -> name <> "" ->
  noSpace absPath = true -> absPath <> "" ->
  (addGoMod = false -> HasPrefix absPath "!" = false) ->
  String.length (addLine name absPath addGoMod) < MaxScanTokenSize ->
  readAll path w = inr (addLine name absPath addGoMod) ->
  readGomrFile path w = (Ok [mkReplace name absPath addGoMod], w).
Proof.
  intros Hn Hne Hp Hpe Hbang Hlen Hr. unfold readGomrFile. rewrite Hr.
  set (p' := (if addGoMod then "!" ++ absPath else absPath)%string).
  assert (Hline : addLine name absPath addGoMod = (name ++ " " ++ p')%string).
  { unfold addLine, p'. by destruct addGoMod. }
  assert (Hp' : noSpace p' = true /\ p' <> "").
  { unfold p'. destruct addGoMod; [|done]. split; [by apply noSpace_bang | discriminate]. }
  destruct Hp' as [Hp'1 Hp'2].
  assert (Hnl : noNewline (name ++ " " ++ p') = true).
  { rewrite !noNewline_append, (noSpace_noNewline _ Hn), (noSpace_noNewline _ Hp'1).
    reflexivity. }
  rewrite Hline in *. rewrite rawLines_single; [|by destruct name | exact Hnl].
  rewrite scanLoop_cons. apply Nat.leb_gt in Hlen. rewrite Hlen.
  rewrite parseLine_dropCR.
  rewrite (parseLine_first_two _ name p' [] (Fields_two _ _ Hn Hne Hp'1 Hp'2)).
  cbn [scanLoop app]. unfold p'. destruct addGoMod.
  - rewrite HasPrefix_bang. reflexivity.
  - by rewrite (Hbang eq_refl).
Qed.

Lemma added_record_loads_witness :
  readGomrFile "/m/.gomr" (worldStore "b !/y/b")
  = (Ok [mkReplace "b" "/y/b" true], worldStore "b !/y/b").
Proof.
  apply (added_record_loads "/m/.gomr" (worldStore "b !/y/b") "b" "/y/b" true);
    try reflexivity; try discriminate.
  apply Nat.ltb_lt. vm_compute. reflexivity.
Defined.

(** ** [add] *)

Lemma findModuleRootLoop_ok (fuel : nat) (d root : string) (w : World) :
  findModuleRootLoop fuel d w = Ok root ->
  root = d /\ String.eqb d "" || String.eqb d "/" = false.
Proof.
  induction fuel as [|fuel IH]; simpl; [discriminate|].
  destruct (String.eqb d "" || String.eqb d "/"); [discriminate|].
  destruct (Stat _ w) as [e|f].
  - destruct (IsNotExist e); [|discriminate]. intros H. by destruct (IH H).
  - destruct (negb (IsDir f)); [intros H; by inversion H|].
    intros H. by destruct (IH H).
Qed.

Lemma goCmd_root (fuel : nat) (w : World) (root : string) (args : list string) :
  findModuleRoot fuel w = (Ok root, w) ->
  goCmd root args = mkCmd (Some root) ("mod" :: args).
Proof.
  rewrite findModuleRoot_run. intros H. inversion H as [Hr].
  apply findModuleRootLoop_ok in Hr as [-> Hd].
  unfold goCmd. destruct (cwd w); [discriminate | reflexivity].
Qed.

(** [addRun] with a path given, up to the first command. *)
Lemma addRun_run
    (goTool : string -> Cmd -> gmap string node -> exit * gmap string node)
    (fuel : nat) (name path : string) (w : World) (n0 : node) (root : string)
    (addGoMod : bool) :
  path <> "" ->
  Stat path w = inr n0 ->
  match Stat (Join [path; "go.mod"]) w with
  | inl e => IsNotExist e = true /\ addGoMod = true
  | inr _ => addGoMod = false
  end ->
  findModuleRoot fuel w = (Ok root, w) ->
  addRun goTool fuel [name; path] w
  = ((if addGoMod
      then wrapping ("failed to go mod init in dir: " ++ path)
             (gomod goTool path ["init"; name])
      else ret tt) ;;;
     gomod goTool root ["edit"; ("-replace=" ++ name ++ "=" ++ path)%string] ;;;
     file <- wrapping ("failed to open " ++ gomrFilename ++ " file for writing")
               (openForWrite false (Join [root; gomrFilename])) ;;
     wrapping ("failed to write to " ++ gomrFilename)
       (writeString file (addLine name path addGoMod)) ;;;
     wrapping ("failed to close " ++ gomrFilename ++ " file") (Close file) ;;;
     Print ("added replace: " ++ name ++ " => " ++ path ++ nl)) w.
Proof.
  intros Hp Hs Hg Hroot. unfold addRun.
  rewrite (length_nonempty _ Hp).
  unfold bind at 1. unfold ret at 1.
  unfold bind at 1. rewrite Hs.
  unfold bind at 1.
  destruct (Stat (Join [path; "go.mod"]) w) as [e|n1].
  - destruct Hg as [He ->]. rewrite He.
    unfold bind at 1. rewrite Hroot. reflexivity.
  - subst addGoMod. unfold bind at 1. rewrite Hroot. reflexivity.
Qed.

(** The end of [addRun], after the commands: the record is appended to the
    store and the success is reported. *)
Lemma addRun_append (root line msg : string) (w : World) :
  let ks := key w (Join [root; gomrFilename]) in
  isFile (files w !! ks) = true
  \/ (files w !! ks = None /\ dirsAbove (files w) ks = true) ->
  (file <- wrapping ("failed to open " ++ gomrFilename ++ " file for writing")
             (openForWrite false (Join [root; gomrFilename])) ;;
   wrapping ("failed to write to " ++ gomrFilename) (writeString file line) ;;;
   wrapping ("failed to close " ++ gomrFilename ++ " file") (Close file) ;;;
   Print msg) w
  = (Ok tt,
     toStdout msg
       (setFiles
          (<[ks := File ((match files w !! ks with
                          | Some (File c) => c
                          | _ => ""
                          end) ++ line)]> (files w)) w)).
Proof.
  intros ks Hf. unfold bind at 1. unfold wrapping at 1. unfold openForWrite.
  assert (Hne : String.eqb (Join [root; gomrFilename]) "" = false).
  { apply String.eqb_neq. intros E.
    pose proof (lastElem_Join root gomrFilename realElem_store eq_refl) as H.
    rewrite E in H. discriminate. }
  rewrite Hne. fold ks.
  destruct (files w !! ks) as [[c| |]|] eqn:E;
    try (destruct Hf as [Hf|[Hf _]]; simpl in Hf; congruence).
  - unfold bind, wrapping, writeString, Close, ret, Print. rewrite E.
    reflexivity.
  - destruct Hf as [Hf|[_ Hf]]; [discriminate|].
    apply (walk_dirsAbove _ (Join [root; gomrFilename])) in Hf. rewrite Hf.
    unfold bind, wrapping, writeString, Close, ret, Print. cbn [files setFiles].
    rewrite lookup_insert_eq. unfold setFiles, toStdout; cbn.
    by rewrite insert_insert_eq.
Qed.

(** X13: [add] of a package whose directory exists and holds a [go.mod],
    in a host module that is found, runs one command: [go mod edit] with the
    argument [-replace=name=path], in the root of the host module.  When that
    fails, [add] returns its error, with its output on the standard error, and
    does not touch the store.  When it succeeds, and the store is a regular
    file or a free path below directories that are there, [add] appends the
    name, a space and the path to the store, with no newline, and reports the
    replacement on the standard output. *)
Theorem add_existing_manifest
    (goTool : string -> Cmd -> gmap string node -> exit * gmap string node)
    (fuel : nat) (name path : string) (w : World) (n0 n1 : node) (root : string)
    (e : exit) (fs : gmap string node) :
  path <> "" ->
  Stat path w = inr n0 ->
  Stat (Join [path; "go.mod"]) w = inr n1 ->
  findModuleRoot fuel w = (Ok root, w) ->
  let edit :=
    mkCmd (Some root) ["mod"; "edit"; ("-replace=" ++ name ++ "=" ++ path)%string] in
  goTool (cwd w) edit (files w) = (e, fs) ->
  let ks := key w (Join [root; gomrFilename]) in
  let w' := after (addRun goTool fuel [name; path]) w in
  match e with
  | ExitFail b =>
      addRun goTool fuel [name; path] w
      = (Err ErrExit, toStderr (b ++ nl) (logExec edit false (setFiles fs w)))
  | Exit0 =>
      isFile (fs !! ks) = true \/ (fs !! ks = None /\ dirsAbove fs ks = true) ->
      fst (addRun goTool fuel [name; path] w) = Ok tt
      /\ execs w' = execs w ++ [(edit, true)]
      /\ files w'
         = <[ks := File ((match fs !! ks with Some (File c) => c | _ => "" end)
                         ++ name ++ " " ++ path)]> fs
      /\ stdout w' = stdout w ++ [("added replace: " ++ name ++ " => " ++ path ++ nl)%string]
  end.
Proof.
  intros Hp Hs Hg Hroot edit Htool ks w'. subst w'. unfold after.
  assert (Hrun :
    addRun goTool fuel [name; path] w
    = match e with
      | Exit0 =>
          (file <- wrapping ("failed to open " ++ gomrFilename ++ " file for writing")
                     (openForWrite false (Join [root; gomrFilename])) ;;
           wrapping ("failed to write to " ++ gomrFilename)
             (writeString file (addLine name path false)) ;;;
           wrapping ("failed to close " ++ gomrFilename ++ " file") (Close file) ;;;
           Print ("added replace: " ++ name ++ " => " ++ path ++ nl))
            (logExec edit true (setFiles fs w))
      | ExitFail b =>
          (Err ErrExit, toStderr (b ++ nl) (logExec edit false (setFiles fs w)))
      end).
  { rewrite (addRun_run goTool fuel name path w n0 root false Hp Hs);
      [|by rewrite Hg|exact Hroot].
    unfold bind at 1. unfold ret at 1. unfold bind at 1.
    rewrite gomod_run, (goCmd_root fuel w root _ Hroot). fold edit. rewrite Htool.
    by destruct e. }
  rewrite Hrun. destruct e as [|b]; [|reflexivity].
  intros Hf.
  rewrite (addRun_append root (addLine name path false) _
             (logExec edit true (setFiles fs w)) Hf).
  cbn. repeat split.
Qed.

Lemma add_existing_manifest_witness :
  let edit := mkCmd (Some "/m") ["mod"; "edit"; "-replace=a=/x/a"] in
  let w' := after (addRun goStub 1 ["a"; "/x/a"]) worldFresh in
  fst (addRun goStub 1 ["a"; "/x/a"] worldFresh) = Ok tt
  /\ execs w' = execs worldFresh ++ [(edit, true)]
  /\ files w' = <[ "/m/.gomr" := File "a /x/a" ]> (files worldFresh)
  /\ stdout w' = stdout worldFresh ++ [("added replace: a => /x/a" ++ nl)%string].
Proof.
  apply (add_existing_manifest goStub 1 "a" "/x/a" worldFresh Directory
           (File ("module a" ++ nl)) "/m" Exit0 (files worldFresh)
           ltac:(discriminate) eq_refl eq_refl eq_refl eq_refl).
  right. split; reflexivity.
Defined.

(** X14: [add] of a package whose path is a directory that holds no
    [go.mod] first runs [go mod init <name>] in that directory.  When that
    fails, [add] returns the wrapped error and runs nothing else.  When it
    succeeds and the [go mod edit] after it succeeds too, and the store is a
    regular file or a free path below directories that are there, [add]
    appends the name, a space, the mark [!] and the path to the store, with no
    newline, and reports the replacement. *)
Theorem add_synthesized_manifest
    (goTool : string -> Cmd -> gmap string node -> exit * gmap string node)
    (fuel : nat) (name path : string) (w : World) (root : string)
    (e1 : exit) (fs1 fs : gmap string node) :
  path <> "" ->
  Stat path w = inr Directory ->
  Stat (Join [path; "go.mod"]) w = inl (ErrNotExist (Join [path; "go.mod"])) ->
  findModuleRoot fuel w = (Ok root, w) ->
  let init := mkCmd (Some path) ["mod"; "init"; name] in
  let edit :=
    mkCmd (Some root) ["mod"; "edit"; ("-replace=" ++ name ++ "=" ++ path)%string] in
  goTool (cwd w) init (files w) = (e1, fs1) ->
  let ks := key w (Join [root; gomrFilename]) in
  let w' := after (addRun goTool fuel [name; path]) w in
  match e1 with
  | ExitFail b =>
      addRun goTool fuel [name; path] w
      = (Err (Wrap ErrExit ("failed to go mod init in dir: " ++ path)),
         toStderr (b ++ nl) (logExec init false (setFiles fs1 w)))
  | Exit0 =>
      goTool (cwd w) edit fs1 = (Exit0, fs) ->
      isFile (fs !! ks) = true \/ (fs !! ks = None /\ dirsAbove fs ks = true) ->
      fst (addRun goTool fuel [name; path] w) = Ok tt
      /\ execs w' = execs w ++ [(init, true); (edit, true)]
      /\ files w'
         = <[ks := File ((match fs !! ks with Some (File c) => c | _ => "" end)
                         ++ name ++ " !" ++ path)]> fs
      /\ stdout w' = stdout w ++ [("added replace: " ++ name ++ " => " ++ path ++ nl)%string]
  end.
Proof.
  intros Hp Hs Hg Hroot init edit Htool ks w'. subst w'. unfold after.
  assert (Hinit : goCmd path ["init"; name] = init).
  { unfold goCmd, init. by rewrite (length_nonempty _ Hp). }
  assert (Hrun :
    addRun goTool fuel [name; path] w
    = match e1 with
      | Exit0 =>
          (gomod goTool root ["edit"; ("-replace=" ++ name ++ "=" ++ path)%string] ;;;
           file <- wrapping ("failed to open " ++ gomrFilename ++ " file for writing")
                     (openForWrite false (Join [root; gomrFilename])) ;;
           wrapping ("failed to write to " ++ gomrFilename)
             (writeString file (addLine name path true)) ;;;
           wrapping ("failed to close " ++ gomrFilename ++ " file") (Close file) ;;;
           Print ("added replace: " ++ name ++ " => " ++ path ++ nl))
            (logExec init true (setFiles fs1 w))
      | ExitFail b =>
          (Err (Wrap ErrExit ("failed to go mod init in dir: " ++ path)),
           toStderr (b ++ nl) (logExec init false (setFiles fs1 w)))
      end).
  { rewrite (addRun_run goTool fuel name path w Directory root true Hp Hs);
      [|by rewrite Hg|exact Hroot].
    unfold bind at 1. unfold wrapping at 1.
    rewrite gomod_run, Hinit, Htool. by destruct e1. }
  rewrite Hrun. destruct e1 as [|b]; [|reflexivity].
  intros Hedit Hf.
  match goal with
  | |- fst (?m ?w1) = _ /\ _ =>
      assert (Hrest :
        m w1
        = (Ok tt,
           toStdout ("added replace: " ++ name ++ " => " ++ path ++ nl)
             (setFiles
                (<[ks := File ((match fs !! ks with Some (File c) => c | _ => "" end)
                               ++ addLine name path true)]> fs)
                (logExec edit true (setFiles fs w1)))))
  end.
  { unfold bind at 1. rewrite gomod_run, (goCmd_root fuel w root _ Hroot). fold edit.
    change (cwd (logExec init true (setFiles fs1 w))) with (cwd w).
    change (files (logExec init true (setFiles fs1 w))) with fs1.
    rewrite Hedit.
    by rewrite (addRun_append root (addLine name path true) _
                  (logExec edit true (setFiles fs (logExec init true (setFiles fs1 w))))
                  Hf). }
  rewrite Hrest. cbn. repeat split. by rewrite <- app_assoc.
Qed.

Lemma add_synthesized_manifest_witness :
  let init := mkCmd (Some "/y/b") ["mod"; "init"; "b"] in
  let edit := mkCmd (Some "/m") ["mod"; "edit"; "-replace=b=/y/b"] in
  let w' := after (addRun goStub 1 ["b"; "/y/b"]) worldFresh in
  fst (addRun goStub 1 ["b"; "/y/b"] worldFresh) = Ok tt
  /\ execs w' = execs worldFresh ++ [(init, true); (edit, true)]
  /\ files w'
     = <[ "/m/.gomr" := File "b !/y/b" ]>
         (<[ "/y/b/go.mod" := File ("module b" ++ nl) ]> (files worldFresh))
  /\ stdout w' = stdout worldFresh ++ [("added replace: b => /y/b" ++ nl)%string].
Proof.
  apply (add_synthesized_manifest goStub 1 "b" "/y/b" worldFresh "/m" Exit0
           (<[ "/y/b/go.mod" := File ("module b" ++ nl) ]> (files worldFresh))
           (<[ "/y/b/go.mod" := File ("module b" ++ nl) ]> (files worldFresh))
           ltac:(discriminate) eq_refl eq_refl eq_refl eq_refl).
  - reflexivity.
  - right. split; reflexivity.
Defined.

(** ** Line endings *)

Lemma dropCR_append_cr (l : string) : dropCR (l ++ cr) = l.
Proof.
  induction l as [|c l IH]; [reflexivity|].
  rewrite append_cons.
  destruct (l ++ cr)%string as [|d r] eqn:E.
  - destruct l; discriminate.
  - by rewrite dropCR_cons2, IH.
Qed.

Lemma scanLoop_crlf (ls : list string) :
  Forall (fun l => String.length (l ++ cr) < MaxScanTokenSize) ls ->
  forall acc, scanLoop (map (fun l => (l ++ cr)%string) ls) acc = scanLoop ls acc.
Proof.
  induction 1 as [|l ls Hl _ IH]; intros acc; [reflexivity|].
  cbn [map]. rewrite !scanLoop_cons.
  assert (Hl' : String.length l < MaxScanTokenSize).
  { rewrite length_append in Hl. lia. }
  apply Nat.leb_gt in Hl, Hl'. rewrite Hl, Hl'.
  rewrite dropCR_append_cr, parseLine_dropCR.
  destruct (parseLine l); [reflexivity | apply IH].
Qed.

(** X15: a store whose lines end with a carriage return and a newline
    loads exactly as the store with the same lines ended by a newline alone
    does, as long as no line, carriage return included, reaches
    [MaxScanTokenSize] bytes. *)
Theorem load_ignores_carriage_returns (p1 p2 : string) (w1 w2 : World)
    (ls : list string) :
  Forall (fun l => noNewline l = true
                   /\ String.length (l ++ cr) < MaxScanTokenSize) ls ->
  readAll p1 w1 = inr (unlines (map (fun l => (l ++ cr)%string) ls)) ->
  readAll p2 w2 = inr (unlines ls) ->
  fst (readGomrFile p1 w1) = fst (readGomrFile p2 w2).
Proof.
  intros Hls H1 H2. unfold readGomrFile. rewrite H1, H2. cbn [fst].
  rewrite !rawLines_unlines.
  - apply scanLoop_crlf. eapply Forall_impl; [exact Hls | by intros l (_ & ?)].
  - eapply Forall_impl; [exact Hls | by intros l (? & _)].
  - apply Forall_map. eapply Forall_impl; [exact Hls|]. intros l (Hn & _).
    cbn beta. by rewrite noNewline_append, Hn.
Qed.

Lemma load_ignores_carriage_returns_witness :
  fst (readGomrFile "/m/.gomr"
         (worldStore (unlines (map (fun l => (l ++ cr)%string) ["a /x/a"; "b !/y/b"]))))
  = fst (readGomrFile "/m/.gomr" (worldStore (unlines ["a /x/a"; "b !/y/b"]))).
Proof.
  apply (load_ignores_carriage_returns "/m/.gomr" "/m/.gomr" _ _ ["a /x/a"; "b !/y/b"]).
  - constructor; [|constructor; [|constructor]];
      (split; [reflexivity | apply Nat.ltb_lt; vm_compute; reflexivity]).
  - reflexivity.
  - reflexivity.
Defined.

(** ** Witnesses of two facts on the store *)

Lemma save_then_load_witness :
  fst (readGomrFile "/m/.gomr"
         (after (writeGomrFile "/m/.gomr"
                   [mkReplace "a" "/x/a" false; mkReplace "b" "/y/b" true]) worldAB))
  = Ok (map (fun _ => mkReplace "%s" "%s" false)
          [mkReplace "a" "/x/a" false; mkReplace "b" "/y/b" true]).
Proof.
  apply (save_then_load "/m/.gomr"
           [mkReplace "a" "/x/a" false; mkReplace "b" "/y/b" true] worldAB).
  - discriminate.
  - left. reflexivity.
  - constructor; [|constructor; [|constructor]];
      (split; [reflexivity|]); (split; [reflexivity|]);
      apply Nat.leb_le; vm_compute; reflexivity.
Defined.

Lemma load_short_line_panics_witness :
  fst (readGomrFile "/m/.gomr" (worldStore (unlines (["a /x/a"] ++ "b" :: ["c /z/c"]))))
  = Panic (IndexOutOfRange (length (Fields "b")) (length (Fields "b"))).
Proof.
  apply (load_short_line_panics "/m/.gomr"
           (worldStore (unlines (["a /x/a"] ++ "b" :: ["c /z/c"])))
           ["a /x/a"] "b" ["c /z/c"]).
  - reflexivity.
  - repeat (constructor; [reflexivity|]). constructor.
  - constructor; [|constructor].
    split; [apply Nat.ltb_lt; vm_compute; reflexivity | vm_compute; lia].
  - apply Nat.ltb_lt. vm_compute. reflexivity.
  - vm_compute. lia.
Defined.

(** ** [remove] of a record of the store *)

Lemma lastElem_sum_key (w : World) (x : string) :
  lastElem (key w (Join [x; "go.sum"])) = Some "go.sum".
Proof.
  assert (Hr : realElem "go.sum") by (repeat split; discriminate).
  apply lastElem_key; [|exact Hr]. by apply lastElem_Join.
Qed.

Lemma Join_sum_nonempty (x : string) : Join [x; "go.sum"] <> "".
Proof.
  intros E. pose proof (lastElem_sum_key (start "/" "" []) x) as H.
  rewrite E in H. discriminate.
Qed.

(** [writeGomrFile] returns without an error only after it has replaced the
    content of the file. *)
Lemma writeGomrFile_ok (path : string) (rs : list replace) (w : World) :
  fst (writeGomrFile path rs w) = Ok tt ->
  writeGomrFile path rs w
  = (Ok tt, setFiles (<[key w path := File (joinAll (map writeLine rs))]> (files w)) w).
Proof.
  intros Hok. destruct (String.eqb path "") eqn:Ep.
  - exfalso. revert Hok. unfold writeGomrFile, bind, wrapping, openForWrite.
    by rewrite Ep.
  - apply String.eqb_neq in Ep.
    destruct (files w !! key w path) as [[c| |]|] eqn:E.
    + apply writeGomrFile_content; [exact Ep|]. left. by rewrite E.
    + exfalso. revert Hok. unfold writeGomrFile, bind, wrapping, openForWrite.
      apply String.eqb_neq in Ep. by rewrite Ep, E.
    + exfalso. revert Hok. unfold writeGomrFile, bind, wrapping, openForWrite.
      apply String.eqb_neq in Ep. by rewrite Ep, E.
    + destruct (walk (files w) path (ancestors (key w path))) as [e|] eqn:Ew.
      * exfalso. revert Hok. unfold writeGomrFile, bind, wrapping, openForWrite.
        apply String.eqb_neq in Ep. by rewrite Ep, E, Ew.
      * apply writeGomrFile_content; [exact Ep|]. right.
        split; [exact E | by apply (walk_dirsAbove _ path)].
Qed.

Lemma removeRun_run
    (goTool : string -> Cmd -> gmap string node -> exit * gmap string node)
    (unicodeLower : string -> string)
    (fuel : nat) (name : string) (w : World) (root : string)
    (rs rs' : list replace) (d : replace) :
  findModuleRoot fuel w = (Ok root, w) ->
  readGomrFile (Join [root; gomrFilename]) w = (Ok rs, w) ->
  removeLoop unicodeLower name 0 rs false zeroReplace = (rs', true, d) ->
  removeRun goTool unicodeLower fuel [name] w
  = (gomod goTool "" ["edit"; ("-dropreplace=" ++ name)%string] ;;;
     (if AddGoMod d then
        removeTolerant (Join [AbsPath d; "go.mod"])
          "something went wrong when trying to delete the added go.mod" ;;;
        removeTolerant (Join [AbsPath d; "go.sum"])
          "something went wrong when trying to delete the added go.sum"
      else ret tt) ;;;
     wrapping "failed to write gomr file after remove"
       (writeGomrFile (Join [root; gomrFilename]) rs') ;;;
     Print ("deleted replace: " ++ ModuleName d ++ " => " ++ AbsPath d ++ nl)) w.
Proof.
  intros Hroot Hread Hloop. unfold removeRun.
  unfold bind at 1. rewrite Hroot. unfold bind at 1. rewrite Hread.
  rewrite Hloop. reflexivity.
Qed.

(** X16: when [remove] has found a record of the given name and returns
    without an error, it has run one command, [go mod edit -dropreplace=name]
    with [Dir] unset, the store file holds the lines of the records the loop
    kept and nothing else, the standard output names the deleted record, and,
    if the deleted record was a synthesized one, neither [go.mod] nor [go.sum]
    is left in its directory. *)
Theorem remove_success
    (goTool : string -> Cmd -> gmap string node -> exit * gmap string node)
    (unicodeLower : string -> string)
    (fuel : nat) (name : string) (w : World) (root : string)
    (rs rs' : list replace) (d : replace) :
  findModuleRoot fuel w = (Ok root, w) ->
  readGomrFile (Join [root; gomrFilename]) w = (Ok rs, w) ->
  removeLoop unicodeLower name 0 rs false zeroReplace = (rs', true, d) ->
  fst (removeRun goTool unicodeLower fuel [name] w) = Ok tt ->
  let edit := mkCmd None ["mod"; "edit"; ("-dropreplace=" ++ name)%string] in
  let w' := after (removeRun goTool unicodeLower fuel [name]) w in
  since w w' = [(edit, true)]
  /\ files w' !! key w (Join [root; gomrFilename])
     = Some (File (joinAll (map writeLine rs')))
  /\ stdout w'
     = stdout w ++ [("deleted replace: " ++ ModuleName d ++ " => "
                     ++ AbsPath d ++ nl)%string]
  /\ (AddGoMod d = true ->
      files w' !! key w (Join [AbsPath d; "go.mod"]) = None
      /\ files w' !! key w (Join [AbsPath d; "go.sum"]) = None).
Proof.
  intros Hroot Hread Hloop Hok edit w'. subst w'. unfold after.
  rewrite (removeRun_run goTool unicodeLower fuel name w root rs rs' d Hroot Hread Hloop)
    in Hok |- *.
  unfold bind in Hok |- *. rewrite gomod_run in Hok |- *.
  change (goCmd "" ["edit"; ("-dropreplace=" ++ name)%string]) with edit in Hok |- *.
  destruct (goTool (cwd w) edit (files w)) as [[|b] fs]; [|discriminate Hok].
  set (w1 := logExec edit true (setFiles fs w)) in *.
  assert (H1 : cwd w1 = cwd w /\ execs w1 = execs w ++ [(edit, true)]
               /\ stdout w1 = stdout w) by done.
  destruct H1 as (Hc1 & He1 & Hs1). clearbody w1.
  set (pm := Join [AbsPath d; "go.mod"]) in *.
  set (ps := Join [AbsPath d; "go.sum"]) in *.
  set (pg := Join [root; gomrFilename]) in *.
  assert (Hkey : forall wa wb p, cwd wa = cwd wb -> key wa p = key wb p).
  { intros wa wb p H. unfold key. by rewrite H. }
  assert (Hso : forall p msg wa, stdout (snd (removeTolerant p msg wa)) = stdout wa).
  { intros p msg wa. unfold removeTolerant, Remove.
    destruct (lookupNode _ wa) as [e|[c| |]]; simpl; try reflexivity.
    - by destruct (negb (IsNotExist e)).
    - by destruct (emptyDir _ _). }
  assert (Hmk : forall w3, key w3 (Join [AbsPath d; "go.mod"]) <> key w pg).
  { intros w3. apply manifest_key_not_store. }
  assert (Hsk : forall w3, key w3 (Join [AbsPath d; "go.sum"]) <> key w pg).
  { intros w3 E. pose proof (lastElem_sum_key w3 (AbsPath d)) as Hl.
    rewrite E in Hl. unfold pg in Hl. rewrite lastElem_store_key in Hl.
    discriminate. }
  assert (Htail : forall w3,
    cwd w3 = cwd w -> execs w3 = execs w ++ [(edit, true)] -> stdout w3 = stdout w ->
    fst (writeGomrFile pg rs' w3) = Ok tt ->
    let w4 := snd (writeGomrFile pg rs' w3) in
    fst (writeGomrFile pg rs' w3) = Ok tt
    /\ execs w4 = execs w ++ [(edit, true)]
    /\ files w4 !! key w pg = Some (File (joinAll (map writeLine rs')))
    /\ stdout w4 = stdout w
    /\ (forall k, k <> key w pg -> files w4 !! k = files w3 !! k)).
  { intros w3 Hc3 He3 Hs3 Hw. cbv zeta. rewrite (writeGomrFile_ok _ _ _ Hw).
    rewrite (Hkey w3 w pg Hc3). cbn [fst snd setFiles files execs stdout].
    split; [reflexivity|]. split; [exact He3|].
    split; [by rewrite lookup_insert_eq|]. split; [exact Hs3|].
    intros k Hk. by rewrite lookup_insert_ne. }
  destruct (AddGoMod d) eqn:Hd; cbv beta iota in Hok |- *.
  - pose proof (removeTolerant_effect pm
      "something went wrong when trying to delete the added go.mod" w1) as Hm.
    pose proof (Hso pm
      "something went wrong when trying to delete the added go.mod" w1) as Hsm.
    cbv zeta in Hm.
    destruct (removeTolerant pm _ w1) as [[[]|e|p|] w2]; try discriminate Hok.
    cbn [fst snd] in Hm, Hsm. destruct Hm as (Hc2 & He2 & _ & _ & Hm).
    pose proof (removeTolerant_effect ps
      "something went wrong when trying to delete the added go.sum" w2) as Hsum.
    pose proof (Hso ps
      "something went wrong when trying to delete the added go.sum" w2) as Hss.
    cbv zeta in Hsum.
    destruct (removeTolerant ps _ w2) as [[[]|e|p|] w3]; try discriminate Hok.
    cbn [fst snd] in Hsum, Hss. destruct Hsum as (Hc3 & He3 & Hoth & _ & Hsum).
    assert (Hc : cwd w3 = cwd w) by congruence.
    assert (He : execs w3 = execs w ++ [(edit, true)]) by congruence.
    assert (Hs : stdout w3 = stdout w) by congruence.
    assert (Hk2 : key w2 ps = key w ps) by (apply Hkey; congruence).
    assert (Hk1 : key w1 pm = key w pm) by (apply Hkey; congruence).
    rewrite Hk2 in Hoth, Hsum. rewrite Hk1 in Hm.
    unfold wrapping in Hok |- *.
    pose proof (Htail w3 Hc He Hs) as Ht. cbv zeta in Ht.
    destruct (writeGomrFile pg rs' w3) as [[[]|e|p|] w4]; try discriminate Hok.
    destruct (Ht eq_refl) as (_ & He4 & Hf4 & Hs4 & Ho4). cbn [snd] in *.
    unfold Print. cbn [fst snd toStdout files execs stdout].
    split; [by apply since_app|]. split; [exact Hf4|].
    split; [by rewrite Hs4|]. intros _. split.
    + rewrite Ho4; [|apply Hmk]. rewrite Hoth; [apply Hm, Join_manifest_nonempty|].
      intros E. pose proof (lastElem_manifest_key w (AbsPath d)) as Hl.
      fold pm in Hl. rewrite E in Hl. unfold ps in Hl.
      rewrite lastElem_sum_key in Hl. discriminate.
    + rewrite Ho4; [|apply Hsk]. apply Hsum, Join_sum_nonempty.
  - unfold ret in Hok |- *. unfold wrapping in Hok |- *.
    pose proof (Htail w1 Hc1 He1 Hs1) as Ht. cbv zeta in Ht.
    destruct (writeGomrFile pg rs' w1) as [[[]|e|p|] w4]; try discriminate Hok.
    destruct (Ht eq_refl) as (_ & He4 & Hf4 & Hs4 & Ho4). cbn [snd] in *.
    unfold Print. cbn [fst snd toStdout files execs stdout].
    split; [by apply since_app|]. split; [exact Hf4|].
    split; [by rewrite Hs4|]. discriminate.
Qed.

Lemma remove_success_witness :
  let edit := mkCmd None ["mod"; "edit"; ("-dropreplace=" ++ "b")%string] in
  let w' := after (removeRun goStub id 1 ["b"]) (after (upRun goStub 1) worldAB) in
  since (after (upRun goStub 1) worldAB) w' = [(edit, true)]
  /\ files w' !! key (after (upRun goStub 1) worldAB) (Join ["/m"; gomrFilename])
     = Some (File (joinAll (map writeLine [mkReplace "a" "/x/a" false])))
  /\ stdout w'
     = stdout (after (upRun goStub 1) worldAB)
       ++ [("deleted replace: " ++ "b" ++ " => " ++ "/y/b" ++ nl)%string]
  /\ (true = true ->
      files w' !! key (after (upRun goStub 1) worldAB) (Join ["/y/b"; "go.mod"]) = None
      /\ files w' !! key (after (upRun goStub 1) worldAB) (Join ["/y/b"; "go.sum"]) = None).
Proof.
  apply (remove_success goStub id 1 "b" (after (upRun goStub 1) worldAB) "/m"
           [mkReplace "a" "/x/a" false; mkReplace "b" "/y/b" true]
           [mkReplace "a" "/x/a" false] (mkReplace "b" "/y/b" true));
    reflexivity.
Defined.
